(** * Market-data service: indicator engine, resolver, quote fetcher, TTL cache

    A shallow embedding of
      - [utils/cache.py]         (module [Cache]),
      - [services/indicators.py] (module [Indicators]),
      - [services/market.py]     (module [Market]),
      - [services/tickers.py]    (module [Tickers]),
    together with the properties the design document states about them.

    Conventions.
      - A Python number is a [pynum]: either [NaN] or the exact rational
        value of the number.  Comparisons of Python numbers are exact on
        their values, so thresholds written as float literals are given by
        the exact value of the double they denote.  The arithmetic of
        the indicator engine is carried out in the rationals; the derived
        fields of a quote are computed in binary64 (module [F64]).
      - A Python exception is a value of [exn]; a computation that may
        raise returns a [result].
      - [time()] is a clock reading passed in by the caller of the
        operation that reads it. *)

From Stdlib Require Import ZArith QArith Qround Qabs List String Ascii Bool Lia.
Import ListNotations.

Local Open Scope string_scope.
Local Open Scope Z_scope.

(** ** Exceptions *)

Inductive exn : Type :=
| ValueError (msg : string)
| KeyError (key : string)
| IndexError (msg : string)
| UpstreamError (msg : string).   (* anything the data provider raises *)

Inductive result (A : Type) : Type :=
| Ok (a : A)
| Raise (e : exn).

Arguments Ok {A} a.
Arguments Raise {A} e.

Definition bind {A B : Type} (m : result A) (k : A -> result B) : result B :=
  match m with
  | Ok a => k a
  | Raise e => Raise e
  end.

Declare Scope result_scope.
Delimit Scope result_scope with result.
Notation "x <- m ;; k" := (bind m (fun x => k))
  (at level 100, m at next level, right associativity) : result_scope.
Notation "' p <- m ;; k" := (bind m (fun p => k))
  (at level 100, p pattern, m at next level, right associativity) : result_scope.
Local Open Scope result_scope.

(** ** Rational helpers *)

Definition Qlt_bool (x y : Q) : bool := negb (Qle_bool y x).

(** ** utils/cache.py *)

Module Cache.

Section WithValue.

Variable V : Type.

(** A Python [dict] keeps its keys in insertion order; [min] over its
    items depends on that order, so the store is an association list. *)
Definition Store : Type := list (string * (Q * V)).

Fixpoint dict_get (key : string) (d : Store) : option (Q * V) :=
  match d with
  | [] => None
  | (k, item) :: d' => if String.eqb k key then Some item else dict_get key d'
  end.

(* d.pop(key, None) *)
Fixpoint dict_pop (key : string) (d : Store) : Store :=
  match d with
  | [] => []
  | (k, item) :: d' =>
      if String.eqb k key then dict_pop key d' else (k, item) :: dict_pop key d'
  end.

(* d[key] = item : an existing key keeps its place, a new one goes last *)
Fixpoint dict_setitem (key : string) (item : Q * V) (d : Store) : Store :=
  match d with
  | [] => [(key, item)]
  | (k, old) :: d' =>
      if String.eqb k key then (k, item) :: d'
      else (k, old) :: dict_setitem key item d'
  end.

(* len(d) *)
Definition len (d : Store) : Z := Z.of_nat (List.length d).

(* min(items, key=lambda kv: kv[1][0]) keeps the first of equal minima *)
Fixpoint min_from (best : string * (Q * V)) (items : Store) : string * (Q * V) :=
  match items with
  | [] => best
  | kv :: items' =>
      if Qlt_bool (fst (snd kv)) (fst (snd best))
      then min_from kv items' else min_from best items'
  end.

Definition min_by_time (items : Store) : result (string * (Q * V)) :=
  match items with
  | [] => Raise (ValueError "min() arg is an empty sequence")
  | kv :: items' => Ok (min_from kv items')
  end.

Record TTLCache : Type := mkTTLCache {
  ttl : Z;
  maxsize : Z;
  _store : Store
}.

(* TTLCache.__init__ *)
Definition init (ttl_seconds maxsize : Z) : TTLCache :=
  mkTTLCache ttl_seconds maxsize [].

Definition with_store (c : TTLCache) (d : Store) : TTLCache :=
  mkTTLCache (ttl c) (maxsize c) d.

(** [get c key now]: [now] is what [time()] returns when it is read. *)
Definition get (c : TTLCache) (key : string) (now : Q) : option V * TTLCache :=
  match dict_get key (_store c) with
  | None => (None, c)
  | Some (ts, val) =>
      if Qlt_bool (inject_Z (ttl c)) (now - ts)
      then (None, with_store c (dict_pop key (_store c)))
      else (Some val, c)
  end.

(** [set c key value now]: [now] is the reading stored with the value. *)
Definition set (c : TTLCache) (key : string) (value : V) (now : Q)
  : result TTLCache :=
  d <- (if maxsize c <=? len (_store c)
        then (oldest <- min_by_time (_store c) ;;
              Ok (dict_pop (fst oldest) (_store c)))
        else Ok (_store c)) ;;
  Ok (with_store c (dict_setitem key (now, value) d)).

End WithValue.

Arguments dict_get {V}.
Arguments dict_pop {V}.
Arguments dict_setitem {V}.
Arguments len {V}.
Arguments min_from {V}.
Arguments min_by_time {V}.
Arguments mkTTLCache {V}.
Arguments ttl {V}.
Arguments maxsize {V}.
Arguments _store {V}.
Arguments init {V}.
Arguments with_store {V}.
Arguments get {V}.
Arguments set {V}.

End Cache.

(** ** Python strings (ASCII) *)

Module Py.

(** Ticker symbols are ASCII; characters above 127 are left as they are. *)
Definition isspace (c : ascii) : bool :=
  let n := nat_of_ascii c in
  ((9 <=? n) && (n <=? 13) || (28 <=? n) && (n <=? 32))%nat.

Definition upper_char (c : ascii) : ascii :=
  let n := nat_of_ascii c in
  if ((97 <=? n) && (n <=? 122))%nat then ascii_of_nat (n - 32) else c.

(* str.upper *)
Fixpoint upper (s : string) : string :=
  match s with
  | EmptyString => EmptyString
  | String c s' => String (upper_char c) (upper s')
  end.

(* str.lstrip *)
Fixpoint lstrip (s : string) : string :=
  match s with
  | EmptyString => EmptyString
  | String c s' => if isspace c then lstrip s' else s
  end.

(* str.rstrip *)
Fixpoint rstrip (s : string) : string :=
  match s with
  | EmptyString => EmptyString
  | String c s' =>
      match rstrip s' with
      | EmptyString => if isspace c then EmptyString else String c EmptyString
      | r => String c r
      end
  end.

(* str.strip *)
Definition strip (s : string) : string := rstrip (lstrip s).

(* c in s *)
Fixpoint contains (c : ascii) (s : string) : bool :=
  match s with
  | EmptyString => false
  | String c' s' => Ascii.eqb c' c || contains c s'
  end.

(* sep.join(parts) *)
Definition join (sep : string) (parts : list string) : string :=
  String.concat sep parts.

(* bool(s) for a str *)
Definition truthy_str (s : string) : bool :=
  match s with EmptyString => false | _ => true end.

End Py.

(** ** Python numbers *)

Inductive pynum : Type :=
| NaN
| Num (q : Q).

Module PyNum.

Definition lift2 (f : Q -> Q -> Q) (a b : pynum) : pynum :=
  match a, b with
  | Num x, Num y => Num (f x y)
  | _, _ => NaN
  end.

Definition add : pynum -> pynum -> pynum := lift2 Qplus.
Definition sub : pynum -> pynum -> pynum := lift2 Qminus.
Definition mul : pynum -> pynum -> pynum := lift2 Qmult.

Definition neg (a : pynum) : pynum :=
  match a with NaN => NaN | Num x => Num (- x) end.

Definition is_zero (q : Q) : bool := Qeq_bool q 0.

(** Division.  A zero divisor would give an infinity; every division in
    [rsi] is guarded so that its divisor is not zero: see
    [rsi_divisors_not_zero]. *)
Definition div (a b : pynum) : pynum :=
  match a, b with
  | Num x, Num y => if is_zero y then NaN else Num (x / y)
  | _, _ => NaN
  end.

(* bool(x): zero is false, NaN is true *)
Definition truthy (a : pynum) : bool :=
  match a with NaN => true | Num x => negb (is_zero x) end.

(* x < y, x <= y : false as soon as one side is NaN *)
Definition lt (a b : pynum) : bool :=
  match a, b with Num x, Num y => Qlt_bool x y | _, _ => false end.
Definition le (a b : pynum) : bool :=
  match a, b with Num x, Num y => Qle_bool x y | _, _ => false end.

Definition of_Z (z : Z) : pynum := Num (inject_Z z).

(** Rounding to the nearest integer, ties to the even one. *)
Definition round_half_even (q : Q) : Z :=
  let f := Qfloor q in
  match (q - inject_Z f ?= 1 # 2)%Q with
  | Lt => f
  | Gt => f + 1
  | Eq => if Z.even f then f else f + 1
  end.

Definition pow10 (n : nat) : Q := inject_Z (10 ^ Z.of_nat n).

(* numpy's around(x, ndigits), on exact values *)
Definition round_to (ndigits : nat) (a : pynum) : pynum :=
  match a with
  | NaN => NaN
  | Num x => Num (inject_Z (round_half_even (x * pow10 ndigits)) / pow10 ndigits)
  end.

(* int(x): truncation toward zero; int(nan) raises *)
Definition to_int (a : pynum) : result Z :=
  match a with
  | NaN => Raise (ValueError "cannot convert float NaN to integer")
  | Num x => Ok (Z.quot (Qnum x) (Zpos (Qden x)))
  end.

End PyNum.

(** ** pandas: the Series and DataFrame operations the services use *)

Module Pandas.

Definition Series : Type := list pynum.

(** A frame is an index and named columns of the same length. *)
Record DataFrame : Type := mkDataFrame {
  index_name : option string;
  index : Series;
  columns : list (string * Series)
}.

(* pd.DataFrame() *)
Definition DataFrame_empty : DataFrame := mkDataFrame None [] [].

(* df.empty : some axis has length zero *)
Definition empty (df : DataFrame) : bool :=
  match index df, columns df with
  | [], _ => true
  | _, [] => true
  | _, _ => false
  end.

(* name in df *)
Definition has_column (name : string) (df : DataFrame) : bool :=
  existsb (fun c => String.eqb (fst c) name) (columns df).

(* df[name] *)
Definition column (name : string) (df : DataFrame) : result Series :=
  match find (fun c => String.eqb (fst c) name) (columns df) with
  | Some c => Ok (snd c)
  | None => Raise (KeyError name)
  end.

Fixpoint zip_with {A B C : Type} (f : A -> B -> C) (l1 : list A) (l2 : list B)
  : list C :=
  match l1, l2 with
  | a :: l1', b :: l2' => f a b :: zip_with f l1' l2'
  | _, _ => []
  end.

(* s.diff() *)
Definition diff (s : Series) : Series :=
  match s with
  | [] => []
  | _ :: s' => NaN :: zip_with PyNum.sub s' s
  end.

(* s.clip(lower=0), s.clip(upper=0) *)
Definition clip_lower0 (s : Series) : Series :=
  map (fun a => match a with
                | NaN => NaN
                | Num x => if Qlt_bool x 0 then Num 0 else Num x
                end) s.
Definition clip_upper0 (s : Series) : Series :=
  map (fun a => match a with
                | NaN => NaN
                | Num x => if Qlt_bool 0 x then Num 0 else Num x
                end) s.

(* s.replace(0, np.nan) *)
Definition replace_zero_nan (s : Series) : Series :=
  map (fun a => match a with
                | NaN => NaN
                | Num x => if PyNum.is_zero x then NaN else Num x
                end) s.

Fixpoint all_nums (w : Series) : option (list Q) :=
  match w with
  | [] => Some []
  | NaN :: _ => None
  | Num x :: w' =>
      match all_nums w' with Some qs => Some (x :: qs) | None => None end
  end.

Definition Qsum (qs : list Q) : Q := fold_right Qplus 0%Q qs.

(* the [n] values that end at position [i] *)
Definition window (n : nat) (s : Series) (i : nat) : Series :=
  firstn n (skipn (i + 1 - n) s).

(** [s.rolling(n).mean()] for a positive window [n]: [min_periods] is
    the window, so a position has a value only when the window is full
    and holds no NaN. *)
Definition rolling_mean (n : nat) (s : Series) : Series :=
  map (fun i =>
         if (n <=? i + 1)%nat
         then match all_nums (window n s i) with
              | Some qs => Num (Qsum qs / inject_Z (Z.of_nat n))
              | None => NaN
              end
         else NaN)
      (seq 0 (List.length s)).

(** [s.ewm(span=span, adjust=False).mean()]: the running weighted mean
    of pandas, with [ignore_na=False] and [min_periods=0].  [weighted]
    is NaN until the first value is seen; a NaN input repeats the last
    mean and ages its weight. *)
Fixpoint ewm_loop (alpha : Q) (weighted : pynum) (old_wt : Q) (vals : Series)
  : Series :=
  match vals with
  | [] => []
  | cur :: vals' =>
      let '(weighted', old_wt') :=
        match weighted, cur with
        | Num w, Num c =>
            let wt := (old_wt * (1 - alpha))%Q in
            (if Qeq_bool w c then Num w
             else Num ((wt * w + alpha * c) / (wt + alpha)), 1%Q)
        | Num w, NaN => (Num w, (old_wt * (1 - alpha))%Q)
        | NaN, _ => (cur, old_wt)
        end in
      weighted' :: ewm_loop alpha weighted' old_wt' vals'
  end.

Definition ewm_mean (span : Z) (vals : Series) : result Series :=
  if span <? 1 then Raise (ValueError "span must satisfy: span >= 1")
  else
    let alpha := (2 / (inject_Z span + 1))%Q in
    Ok (match vals with
        | [] => []
        | v0 :: vals' => v0 :: ewm_loop alpha v0 1 vals'
        end).

(* s.round(ndigits) *)
Definition round (ndigits : nat) (s : Series) : Series :=
  map (PyNum.round_to ndigits) s.

(* s.dropna().tolist() *)
Fixpoint dropna (s : Series) : list Q :=
  match s with
  | [] => []
  | NaN :: s' => dropna s'
  | Num x :: s' => x :: dropna s'
  end.

(* l[-1] if l else None *)
Definition last_opt {A : Type} (l : list A) : option A :=
  match rev l with
  | [] => None
  | a :: _ => Some a
  end.

(* s.iloc[-k] for k = 1, 2, ... *)
Definition iloc_back (k : nat) (s : Series) : result pynum :=
  match nth_error (rev s) (k - 1) with
  | Some a => Ok a
  | None => Raise (IndexError "single positional indexer is out-of-bounds")
  end.

(* len(df) *)
Definition len (df : DataFrame) : nat := List.length (index df).

(* str.title on ASCII: a letter after a non-letter is upper-cased,
   the other letters are lower-cased *)
Definition is_alpha (c : ascii) : bool :=
  let n := nat_of_ascii c in
  ((65 <=? n) && (n <=? 90) || (97 <=? n) && (n <=? 122))%nat.
Definition lower_char (c : ascii) : ascii :=
  let n := nat_of_ascii c in
  if ((65 <=? n) && (n <=? 90))%nat then ascii_of_nat (n + 32) else c.
Fixpoint title_from (prev_alpha : bool) (s : string) : string :=
  match s with
  | EmptyString => EmptyString
  | String c s' =>
      String (if prev_alpha then lower_char c else Py.upper_char c)
             (title_from (is_alpha c) s')
  end.
Definition title (s : string) : string := title_from false s.

(* df.rename(columns=f) *)
Definition rename_columns (f : string -> string) (df : DataFrame) : DataFrame :=
  mkDataFrame (index_name df) (index df)
              (map (fun c => (f (fst c), snd c)) (columns df)).

(* df.reset_index(): the index becomes the first column, under its name,
   or under "index" ("level_0" when "index" is taken) if it has none; a
   column of that name must not exist already *)
Definition reset_index (df : DataFrame) : result DataFrame :=
  let name := match index_name df with
              | Some n => n
              | None => if has_column "index" df then "level_0" else "index"
              end in
  if has_column name df
  then Raise (ValueError ("cannot insert " ++ name ++ ", already exists"))
  else Ok (mkDataFrame None
             (map (fun i => PyNum.of_Z (Z.of_nat i)) (seq 0 (List.length (index df))))
             ((name, index df) :: columns df)).

End Pandas.

(** ** services/indicators.py *)

Module Indicators.

Import Pandas.

Definition ema (series : Series) (span : Z) : result Series :=
  ewm_mean span series.

Definition rsi (close : Series) (period : nat) : Series :=
  let delta := diff close in
  let gain := rolling_mean period (clip_lower0 delta) in
  let loss := rolling_mean period (map PyNum.neg (clip_upper0 delta)) in
  let rs := zip_with PyNum.div gain (replace_zero_nan loss) in
  map (fun x => PyNum.sub (PyNum.of_Z 100)
                  (PyNum.div (PyNum.of_Z 100) (PyNum.add (PyNum.of_Z 1) x))) rs.

Definition macd (close : Series) (fast slow signal : Z)
  : result (Series * Series * Series) :=
  ema_fast <- ema close fast ;;
  ema_slow <- ema close slow ;;
  let macd_line := zip_with PyNum.sub ema_fast ema_slow in
  signal_line <- ema macd_line signal ;;
  let hist := zip_with PyNum.sub macd_line signal_line in
  Ok (macd_line, signal_line, hist).

Record RsiEntry : Type := mkRsiEntry {
  series : list Q;
  latest : option Q
}.

Record MacdEntry : Type := mkMacdEntry {
  line : list Q;
  signal : list Q;
  hist : list Q;
  hist_latest : option Q
}.

Record MovingAverages : Type := mkMovingAverages {
  sma_50 : list Q;
  sma_200 : list Q
}.

(** The value of [compute_all_indicators].  Its ['bollinger_bands']
    entry needs a square root and is left out; nothing below depends
    on it. *)
Record IndicatorSet : Type := mkIndicatorSet {
  rsi_entry : RsiEntry;
  macd_entry : MacdEntry;
  moving_averages : MovingAverages
}.

(* df['Close'] if 'Close' in df else df['close'] *)
Definition close_of (df : DataFrame) : result Series :=
  if has_column "Close" df then column "Close" df else column "close" df.

Definition compute_all_indicators (df : DataFrame) : result IndicatorSet :=
  close <- close_of df ;;
  let r := round 2 (rsi close 14) in
  '(m_line, m_sig, m_hist) <- macd close 12 26 9 ;;
  let r_clean := dropna r in
  Ok (mkIndicatorSet
        (mkRsiEntry r_clean (last_opt r_clean))
        (mkMacdEntry (dropna m_line) (dropna m_sig) (dropna m_hist)
                     (last_opt (dropna m_hist)))
        (mkMovingAverages (dropna (rolling_mean 50 close))
                          (dropna (rolling_mean 200 close)))).

End Indicators.

(** ** Python floats *)

(** A Python [float] is a binary64 number.  Its arithmetic gives the
    binary64 number nearest to the exact result, ties to the even
    significand, and [round(x, n)] gives the binary64 number nearest to
    the decimal with [n] places that is nearest to the exact value of
    [x], ties to the even last place.  A [Num q] that is used as a float
    holds the exact value of the float; a result beyond the largest
    binary64 number is an infinity, which this model does not tell apart
    from [NaN]. *)

Module F64.

(* 2^z *)
Definition pow2 (z : Z) : Q :=
  if 0 <=? z then inject_Z (2 ^ z) else (1 / inject_Z (2 ^ (- z)))%Q.

(* floor (log2 a), for a > 0 *)
Definition ilog2 (a : Q) : Z :=
  let e0 := Z.log2 (Qnum a) - Z.log2 (Zpos (Qden a)) in
  if Qle_bool (pow2 e0) a then e0 else e0 - 1.

(** The binary64 number nearest to [q]: 53 significant bits, the
    spacing never below 2^-1074. *)
Definition nearest (q : Q) : pynum :=
  if Qeq_bool q 0 then Num 0
  else
    let a := Qabs q in
    let u := pow2 (Z.max (ilog2 a - 52) (-1074)) in
    let r := (inject_Z (PyNum.round_half_even (a / u)) * u)%Q in
    if Qle_bool (pow2 1024) r then NaN
    else Num (if Qlt_bool q 0 then (- r)%Q else r).

Definition lift2 (f : Q -> Q -> Q) (a b : pynum) : pynum :=
  match a, b with
  | Num x, Num y => nearest (f x y)
  | _, _ => NaN
  end.

(* x - y, x * y *)
Definition sub : pynum -> pynum -> pynum := lift2 Qminus.
Definition mul : pynum -> pynum -> pynum := lift2 Qmult.

(* x / y; [fetch_quotes] divides by a number it has tested to be truthy *)
Definition div (a b : pynum) : pynum :=
  match a, b with
  | Num x, Num y => if PyNum.is_zero y then NaN else nearest (x / y)
  | _, _ => NaN
  end.

(* round(x, ndigits), for the small positive ndigits used here *)
Definition round (ndigits : nat) (a : pynum) : pynum :=
  match a with
  | NaN => NaN
  | Num x =>
      nearest (inject_Z (PyNum.round_half_even (x * PyNum.pow10 ndigits))
               / PyNum.pow10 ndigits)
  end.

End F64.

(** ** services/market.py *)

Module Market.

Import Pandas.

(** *** The data provider ([yfinance]) *)

(** [fast_info] is read through [.get(key)]; numeric and text entries
    are kept apart. *)
Record FastInfo : Type := mkFastInfo {
  fi_num : string -> option pynum;
  fi_str : string -> option string
}.

Definition no_fast_info : FastInfo :=
  mkFastInfo (fun _ => None) (fun _ => None).

(** A [yf.Ticker] object: [history period interval] is
    [t.history(period=.., interval=.., actions=False)], which gives a
    frame or [None], or raises; [fast_info] likewise. *)
Record Ticker : Type := mkTicker {
  history : string -> string -> result (option DataFrame);
  fast_info : result (option FastInfo)
}.

(* yf.Ticker(symbol) *)
Definition Provider : Type := string -> result Ticker.

(** What the shared cache holds: [fetch_history] stores frames under
    "hist:" keys, [fetch_info] stores mappings under "info:" keys. *)
Inductive Any : Type :=
| Frame (df : DataFrame)
| Mapping (d : list (string * pynum)).

Definition TTLCache : Type := Cache.TTLCache Any.

(* cache = TTLCache(ttl_seconds=300) *)
Definition cache : TTLCache := Cache.init 300 128.

(** *** Symbol resolution *)

Definition _normalize_symbol (symbol : option string) : string :=
  Py.upper (Py.strip (match symbol with Some s => s | None => "" end)).

Definition _fetch_hist_once (yf : Provider) (symbol period interval : string)
  : result DataFrame :=
  t <- yf symbol ;;
  df <- history t period interval ;;
  match df with
  | None => Ok DataFrame_empty
  | Some df =>
      if empty df then Ok DataFrame_empty
      else
        let df := rename_columns title df in
        df <- reset_index df ;;
        Ok (rename_columns (fun c => if String.eqb c "Date" then "date" else c) df)
  end.

Definition hist_key (symbol period interval : string) : string :=
  "hist:" ++ symbol ++ ":" ++ period ++ ":" ++ interval.

Definition candidates_of (symbol : string) : list string :=
  if Py.contains "." symbol then [symbol]
  else [symbol; symbol ++ ".NS"; symbol ++ ".BO"].

Definition combos_of (period interval : string) : list (string * string) :=
  [ (period, interval);
    ("6mo", "1d");
    ("3mo", "1d");
    ("1mo", "1d");
    ("1y", "1wk");
    ("max", "1wk") ].

(* f"{cand}({p},{iv})" *)
Definition attempt_label (cand p iv : string) : string :=
  cand ++ "(" ++ p ++ "," ++ iv ++ ")".

(** One run of [fetch_history]: what it returns or raises, the cache it
    leaves behind, and the provider calls it made, in order. *)
Record Run : Type := mkRun {
  outcome : result Any;
  cache_after : TTLCache;
  calls : list (string * string * string)
}.

(** How a loop ends: by [return], by an exception, or by running out of
    items, with the local [tried] as it then stands. *)
Inductive loop_end : Type :=
| Returned (df : DataFrame) (c : TTLCache)
| Raised (e : exn)
| Exhausted.

Section Resolver.

Variable yf : Provider.
Variable c : TTLCache.        (* the cache when the loops start *)
Variable key : string.
Variable now_set : Q.         (* the reading [cache.set] takes *)

(* for p, iv in combos: ... *)
Fixpoint combos_loop (cand : string) (combos : list (string * string))
    (tried : list string) (log : list (string * string * string))
  : loop_end * list string * list (string * string * string) :=
  match combos with
  | [] => (Exhausted, tried, log)
  | (p, iv) :: combos' =>
      let tried := (tried ++ [attempt_label cand p iv])%list in
      let log := (log ++ [(cand, p, iv)])%list in
      match _fetch_hist_once yf cand p iv with
      | Raise e => (Raised e, tried, log)
      | Ok df =>
          if negb (empty df)
          then match Cache.set c key (Frame df) now_set with
               | Ok c' => (Returned df c', tried, log)
               | Raise e => (Raised e, tried, log)
               end
          else combos_loop cand combos' tried log
      end
  end.

(* for cand in candidates: ... *)
Fixpoint candidates_loop (candidates : list string)
    (combos : list (string * string))
    (tried : list string) (log : list (string * string * string))
  : loop_end * list string * list (string * string * string) :=
  match candidates with
  | [] => (Exhausted, tried, log)
  | cand :: candidates' =>
      match combos_loop cand combos tried log with
      | (Exhausted, tried, log) => candidates_loop candidates' combos tried log
      | stop => stop
      end
  end.

End Resolver.

Definition not_found_message (symbol : string) (tried : list string) : string :=
  "No price history found for symbol: " ++ symbol ++ ". Tried: "
    ++ Py.join ", " tried.

(** [fetch_history yf c symbol period interval now_get now_set] runs on
    the cache [c]; [now_get] and [now_set] are the clock readings of
    [cache.get] and [cache.set]. *)
Definition fetch_history (yf : Provider) (c : TTLCache)
    (symbol : option string) (period interval : string) (now_get now_set : Q)
  : Run :=
  let symbol := _normalize_symbol symbol in
  let key := hist_key symbol period interval in
  match Cache.get c key now_get with
  | (Some cached, c) => mkRun (Ok cached) c []
  | (None, c) =>
      let candidates := candidates_of symbol in
      let combos := combos_of period interval in
      match candidates_loop yf c key now_set candidates combos [] [] with
      | (Returned df c', _, log) => mkRun (Ok (Frame df)) c' log
      | (Raised e, _, log) => mkRun (Raise e) c log
      | (Exhausted, tried, log) =>
          mkRun (Raise (ValueError (not_found_message symbol tried))) c log
      end
  end.

(** *** Summary scoring *)

(* fundamentals(symbol): the six ratios, each possibly absent *)
Record Fundamentals : Type := mkFundamentals {
  trailingPe : option pynum;
  forwardPe : option pynum;
  returnOnEquity : option pynum;
  debtToEquity : option pynum;
  marketCap : option pynum;
  epsTrailingTwelveMonths : option pynum
}.

Record Summary : Type := mkSummary {
  score : Z;
  signal : string;
  reasons : list string;
  technicals : Indicators.IndicatorSet;
  fundamentals : Fundamentals
}.

(* bool(x) for a number that may be None *)
Definition truthy_opt (a : option pynum) : bool :=
  match a with Some x => PyNum.truthy x | None => false end.

(* a or b *)
Definition py_or (a b : option pynum) : option pynum :=
  if truthy_opt a then a else b.

(* the float literal 0.12 *)
Definition float_0_12 : Q := 1080863910568919 # 9007199254740992.

(** [rule_based_summary ind f] is the function after its two lookups
    [ind = technicals(symbol)] and [f = fundamentals(symbol)]. *)
Definition rule_based_summary (ind : Indicators.IndicatorSet) (f : Fundamentals)
  : Summary :=
  let score := 0 in
  let reasons : list string := [] in
  (* RSI *)
  let rsi_latest := Indicators.latest (Indicators.rsi_entry ind) in
  let '(score, reasons) :=
    match rsi_latest with
    | Some r =>
        if Qle_bool 45 r && Qle_bool r 60
        then (score + 1, reasons ++ ["RSI in neutral-to-positive zone"])%list
        else if Qlt_bool r 35
        then (score - 1, reasons ++ ["RSI indicates oversold (bearish risk)"])%list
        else if Qlt_bool 70 r
        then (score - 1, reasons ++ ["RSI indicates overbought (pullback risk)"])%list
        else (score, reasons)
    | None => (score, reasons)
    end in
  (* MACD histogram *)
  let macd_hist := Indicators.hist_latest (Indicators.macd_entry ind) in
  let '(score, reasons) :=
    match macd_hist with
    | Some h =>
        if Qlt_bool 0 h
        then (score + 1, reasons ++ ["MACD histogram positive (bullish momentum)"])%list
        else (score, reasons)
    | None => (score, reasons)
    end in
  (* Fundamentals *)
  let pe := trailingPe f in
  let '(score, reasons) :=
    if truthy_opt pe
       && match pe with
          | Some pe => PyNum.lt (PyNum.of_Z 0) pe && PyNum.lt pe (PyNum.of_Z 35)
          | None => false
          end
    then (score + 1, reasons ++ ["Reasonable P/E valuation"])%list
    else (score, reasons) in
  let roe := returnOnEquity f in
  let '(score, reasons) :=
    if truthy_opt roe
       && match roe with
          | Some roe => PyNum.lt (Num float_0_12) roe
          | None => false
          end
    then (score + 1, reasons ++ ["Healthy ROE (>12%)"])%list
    else (score, reasons) in
  let de := debtToEquity f in
  let '(score, reasons) :=
    match de with
    | Some de =>
        if PyNum.lt de (PyNum.of_Z 100)
        then (score + 1, reasons ++ ["Manageable debt (D/E < 100)"])%list
        else (score, reasons)
    | None => (score, reasons)
    end in
  let signal :=
    if 4 <=? score then "Strong Buy"
    else if score =? 3 then "Buy"
    else if score =? 2 then "Hold"
    else if score =? 1 then "Weak Hold"
    else "Sell" in
  mkSummary score signal reasons ind f.

(** *** Batch quotes *)

Fixpoint _chunks_from (buf : list string) (seq : list string) (size : Z)
  : list (list string) :=
  match seq with
  | [] => match buf with [] => [] | _ => [buf] end
  | s :: seq' =>
      let buf := (buf ++ [s])%list in
      if size <=? Z.of_nat (List.length buf)
      then buf :: _chunks_from [] seq' size
      else _chunks_from buf seq' size
  end.

Definition _chunks (seq : list string) (size : Z) : list (list string) :=
  _chunks_from [] seq size.

Record Quote : Type := mkQuote {
  symbol : string;
  price : option pynum;
  currency : option string;
  previous_close : option pynum;
  change : option pynum;
  change_pct : option pynum;
  market_cap : option Z;
  ts : Z
}.

(* item[field] = value *)
Definition set_price (q : Quote) (v : pynum) : Quote :=
  mkQuote (symbol q) (Some v) (currency q) (previous_close q) (change q)
          (change_pct q) (market_cap q) (ts q).
Definition set_currency (q : Quote) (v : string) : Quote :=
  mkQuote (symbol q) (price q) (Some v) (previous_close q) (change q)
          (change_pct q) (market_cap q) (ts q).
Definition set_previous_close (q : Quote) (v : pynum) : Quote :=
  mkQuote (symbol q) (price q) (currency q) (Some v) (change q)
          (change_pct q) (market_cap q) (ts q).
Definition set_change (q : Quote) (v : pynum) : Quote :=
  mkQuote (symbol q) (price q) (currency q) (previous_close q) (Some v)
          (change_pct q) (market_cap q) (ts q).
Definition set_change_pct (q : Quote) (v : pynum) : Quote :=
  mkQuote (symbol q) (price q) (currency q) (previous_close q) (change q)
          (Some v) (market_cap q) (ts q).
Definition set_market_cap (q : Quote) (v : Z) : Quote :=
  mkQuote (symbol q) (price q) (currency q) (previous_close q) (change q)
          (change_pct q) (Some v) (ts q).

(* the item a symbol starts with *)
Definition new_item (sym : string) (now : Z) : Quote :=
  mkQuote sym None None None None None None now.

(** What one pass of the [try] block reads from the provider. *)
Record Reading : Type := mkReading {
  r_price : option pynum;
  r_prev : option pynum;
  r_curr : option string;
  r_mcap : option pynum
}.

(** The [try] block through the history fall-back: every call that can
    raise is made here, before the item is written to. *)
Definition read_quote (yf : Provider) (c : string) : result Reading :=
  t <- yf c ;;
  fi <- fast_info t ;;
  let fi := match fi with Some fi => fi | None => no_fast_info end in
  let price :=
    py_or (py_or (py_or (fi_num fi "last_price") (fi_num fi "lastPrice"))
                 (fi_num fi "last_trade"))
          (fi_num fi "regularMarketPrice") in
  let prev :=
    py_or (py_or (fi_num fi "previous_close") (fi_num fi "previousClose"))
          (fi_num fi "regularMarketPreviousClose") in
  let curr := fi_str fi "currency" in
  let mcap := py_or (fi_num fi "market_cap") (fi_num fi "marketCap") in
  if negb (truthy_opt price)
  then
    h <- history t "5d" "1d" ;;
    match h with
    | Some h =>
        if negb (empty h)
        then
          close <- column "Close" h ;;
          last <- iloc_back 1 close ;;
          prev <- (if (1 <? len h)%nat
                   then (close <- column "Close" h ;;
                         x <- iloc_back 2 close ;;
                         Ok (Some x))
                   else Ok None) ;;
          Ok (mkReading (Some last) prev curr mcap)
        else Ok (mkReading price prev curr mcap)
    | None => Ok (mkReading price prev curr mcap)
    end
  else Ok (mkReading price prev curr mcap).

(** The rest of the [try] block: the writes to [item].  [float] of a
    number and the guarded [int(mcap)] do not raise out of it.  The
    numbers the provider gives are floats, which [float] leaves as they
    are; the two derived fields are computed in float arithmetic. *)
Definition write_quote (item : Quote) (r : Reading) : Quote :=
  let item :=
    match r_price r with Some p => set_price item p | None => item end in
  let item :=
    match r_prev r with Some p => set_previous_close item p | None => item end in
  let item :=
    match price item, previous_close item with
    | Some p, Some pc =>
        if PyNum.truthy pc
        then
          let ch := F64.round 4 (F64.sub p pc) in
          let item := set_change item ch in
          set_change_pct item
            (F64.round 3 (F64.div (F64.mul (PyNum.of_Z 100) ch) pc))
        else item
    | _, _ => item
    end in
  let item :=
    match r_curr r with
    | Some cu => if Py.truthy_str cu then set_currency item cu else item
    | None => item
    end in
  if truthy_opt (r_mcap r)
  then match r_mcap r with
       | Some m =>
           match PyNum.to_int m with
           | Ok n => set_market_cap item n
           | Raise _ => item               (* except Exception: pass *)
           end
       | None => item
       end
  else item.

(* for c in candidates: try: ...; break / except Exception: continue *)
Fixpoint quote_candidates (yf : Provider) (candidates : list string)
    (item : Quote) : Quote :=
  match candidates with
  | [] => item
  | c :: candidates' =>
      match read_quote yf c with
      | Ok r => write_quote item r
      | Raise _ => quote_candidates yf candidates' item
      end
  end.

(* the body of [for sym in batch] up to [out.append(item)] *)
Definition quote_for (yf : Provider) (now : Z) (sym : string) : Quote :=
  quote_candidates yf (candidates_of sym) (new_item sym now).

(* for sym in batch: ...; out.append(item) *)
Fixpoint batch_loop (yf : Provider) (now : Z) (batch : list string)
    (out : list Quote) : list Quote :=
  match batch with
  | [] => out
  | sym :: batch' => batch_loop yf now batch' (out ++ [quote_for yf now sym])%list
  end.

(* for batch in _chunks(...): ...; time.sleep(max(0, sleep_ms) / 1000.0) *)
Fixpoint chunks_loop (yf : Provider) (now sleep_ms : Z)
    (chunks : list (list string)) (out : list Quote) (slept : list Q)
  : list Quote * list Q :=
  match chunks with
  | [] => (out, slept)
  | batch :: chunks' =>
      chunks_loop yf now sleep_ms chunks' (batch_loop yf now batch out)
        (slept ++ [(inject_Z (Z.max 0 sleep_ms) / 1000)%Q])%list
  end.

(* bool(s) for an entry of the input list *)
Definition truthy_symbol (s : option string) : bool :=
  match s with Some s => Py.truthy_str s | None => false end.

(** [fetch_quotes yf symbols chunk_size sleep_ms now] gives the list it
    returns and the pauses it made, in seconds; [now] is
    [int(time.time())]. *)
Definition fetch_quotes (yf : Provider) (symbols : list (option string))
    (chunk_size sleep_ms : Z) (now : Z) : list Quote * list Q :=
  let symbols := map _normalize_symbol (filter truthy_symbol symbols) in
  chunks_loop yf now sleep_ms (_chunks symbols chunk_size) [] [].

End Market.

(** * Properties *)

(** ** Rationals *)

Lemma Qlt_bool_iff (x y : Q) : Qlt_bool x y = true <-> (x < y)%Q.
Proof.
  unfold Qlt_bool. rewrite negb_true_iff.
  split; intro H.
  - apply Qnot_le_lt. intro Hle. apply Qle_bool_iff in Hle. congruence.
  - destruct (Qle_bool y x) eqn:E; [|reflexivity].
    apply Qle_bool_iff in E. exfalso. exact (Qlt_not_le _ _ H E).
Qed.

Lemma Qlt_bool_false_iff (x y : Q) : Qlt_bool x y = false <-> (y <= x)%Q.
Proof.
  unfold Qlt_bool. rewrite negb_false_iff. apply Qle_bool_iff.
Qed.

(** ** The TTL cache *)

Module CacheFacts.

Import Cache.

Section Dict.

Context {V : Type}.
Implicit Types (d : Store V) (k key : string) (item : Q * V).

Lemma dict_get_setitem_same key item d :
  dict_get key (dict_setitem key item d) = Some item.
Proof.
  induction d as [|[k old] d IH]; simpl.
  - now rewrite String.eqb_refl.
  - destruct (String.eqb k key) eqn:E; simpl; rewrite E; auto.
Qed.

Lemma dict_get_setitem_other k key item d :
  k <> key -> dict_get k (dict_setitem key item d) = dict_get k d.
Proof.
  intros Hne. induction d as [|[k' old] d IH]; simpl.
  - destruct (String.eqb key k) eqn:E; [|reflexivity].
    apply String.eqb_eq in E. congruence.
  - destruct (String.eqb k' key) eqn:E; simpl.
    + apply String.eqb_eq in E. subst k'.
      destruct (String.eqb key k) eqn:E'; [|reflexivity].
      apply String.eqb_eq in E'. congruence.
    + now rewrite IH.
Qed.

Lemma dict_get_pop_same key d : dict_get key (dict_pop key d) = None.
Proof.
  induction d as [|[k old] d IH]; simpl; [reflexivity|].
  destruct (String.eqb k key) eqn:E; simpl; [assumption|].
  now rewrite E.
Qed.

Lemma dict_get_pop_other k key d :
  k <> key -> dict_get k (dict_pop key d) = dict_get k d.
Proof.
  intros Hne. induction d as [|[k' old] d IH]; simpl; [reflexivity|].
  destruct (String.eqb k' key) eqn:E; simpl.
  - apply String.eqb_eq in E. subst k'.
    destruct (String.eqb key k) eqn:E'; [|assumption].
    apply String.eqb_eq in E'. congruence.
  - now rewrite IH.
Qed.

Lemma min_from_In best d : In (min_from best d) (best :: d).
Proof.
  revert best. induction d as [|kv d IH]; intros best; simpl.
  - now left.
  - destruct (Qlt_bool _ _).
    + destruct (IH kv) as [H|H]; [right; left; exact H | right; right; exact H].
    + destruct (IH best) as [H|H]; [left; exact H | right; right; exact H].
Qed.

Lemma min_from_le_best best d :
  (fst (snd (min_from best d)) <= fst (snd best))%Q.
Proof.
  revert best. induction d as [|kv d IH]; intros best; simpl.
  - apply Qle_refl.
  - destruct (Qlt_bool _ _) eqn:E.
    + apply Qlt_bool_iff in E.
      eapply Qle_trans; [apply IH|]. now apply Qlt_le_weak.
    + apply IH.
Qed.

Lemma min_from_least best d kv :
  In kv (best :: d) -> (fst (snd (min_from best d)) <= fst (snd kv))%Q.
Proof.
  revert best. induction d as [|kv' d IH]; intros best Hin; simpl.
  - destruct Hin as [->|[]]. apply Qle_refl.
  - destruct (Qlt_bool _ _) eqn:E.
    + destruct Hin as [<-|[<-|Hin]].
      * eapply Qle_trans; [apply min_from_le_best|].
        apply Qlt_bool_iff in E. now apply Qlt_le_weak.
      * apply min_from_le_best.
      * apply IH. now right.
    + destruct Hin as [<-|[<-|Hin]].
      * apply min_from_le_best.
      * eapply Qle_trans; [apply min_from_le_best|].
        now apply Qlt_bool_false_iff in E.
      * apply IH. now right.
Qed.

Lemma set_stores_key (c c' : TTLCache V) key (value : V) (now : Q) :
  set c key value now = Ok c' ->
  dict_get key (_store c') = Some (now, value) /\ ttl c' = ttl c.
Proof.
  unfold set. destruct (maxsize c <=? len (_store c)).
  - destruct (min_by_time (_store c)) as [oldest|e]; cbn [bind]; [|discriminate].
    intros H. injection H as <-. split; [apply dict_get_setitem_same|reflexivity].
  - cbn [bind]. intros H. injection H as <-.
    split; [apply dict_get_setitem_same|reflexivity].
Qed.

Lemma get_fresh (c : TTLCache V) key (now ts : Q) (v : V) :
  dict_get key (_store c) = Some (ts, v) ->
  (now - ts <= inject_Z (ttl c))%Q ->
  get c key now = (Some v, c).
Proof.
  intros Hget Hle. unfold get. rewrite Hget.
  apply Qlt_bool_false_iff in Hle. now rewrite Hle.
Qed.

Lemma get_keeps_ttl (c c' : TTLCache V) key (now : Q) (r : option V) :
  get c key now = (r, c') -> ttl c' = ttl c.
Proof.
  unfold get. destruct (dict_get key (_store c)) as [[ts v]|].
  - destruct (Qlt_bool _ _); intros H; injection H as _ <-; reflexivity.
  - intros H; injection H as _ <-; reflexivity.
Qed.

End Dict.

(** A full cache of two entries, used in the examples. *)
Definition two_full : TTLCache Z :=
  mkTTLCache 300 2 [("a", (1%Q, 10)); ("b", (2%Q, 20))].

(** C2, as stated, fails: setting the key "b", which is present, in a
    full cache removes the entry of the other key "a". *)
Lemma set_present_key_evicts_another :
  dict_get "b" (_store two_full) = Some (2%Q, 20) /\
  dict_get "a" (_store two_full) = Some (1%Q, 10) /\
  exists c', set two_full "b" 21 3%Q = Ok c' /\
             dict_get "b" (_store c') = Some (3%Q, 21) /\
             dict_get "a" (_store c') = None.
Proof.
  repeat split. eexists. repeat split.
Qed.

(** C2, amended: [set] stores the key with the fresh time and the new
    value.  Below capacity no other key is touched.  At capacity
    ([maxsize <= len]) the entry with the least insertion time is
    removed first, whether or not the key is new, and every key other
    than that one and the key set is untouched. *)
Theorem set_evicts_oldest_whenever_full :
  forall (V : Type) (c : TTLCache V) (key : string) (value : V) (now : Q),
    (maxsize c <= len (_store c) -> _store c <> []) ->
    exists c',
      set c key value now = Ok c' /\
      ttl c' = ttl c /\ maxsize c' = maxsize c /\
      dict_get key (_store c') = Some (now, value) /\
      (len (_store c) < maxsize c ->
         forall k, k <> key -> dict_get k (_store c') = dict_get k (_store c)) /\
      (maxsize c <= len (_store c) ->
         exists oldest,
           In oldest (_store c) /\
           (forall kv, In kv (_store c) ->
                       (fst (snd oldest) <= fst (snd kv))%Q) /\
           (fst oldest <> key -> dict_get (fst oldest) (_store c') = None) /\
           (forall k, k <> key -> k <> fst oldest ->
                      dict_get k (_store c') = dict_get k (_store c))).
Proof.
  intros V c key value now Hne. unfold set.
  destruct (maxsize c <=? len (_store c)) eqn:Hfull.
  - apply Z.leb_le in Hfull. specialize (Hne Hfull).
    destruct (_store c) as [|kv d] eqn:Hst; [congruence|].
    unfold min_by_time, bind, with_store.
    eexists. split; [reflexivity|]. cbn [_store ttl maxsize].
    repeat split.
    + apply dict_get_setitem_same.
    + intros Hlt. lia.
    + intros _. exists (min_from kv d). repeat split.
      * apply min_from_In.
      * intros kv' Hin. now apply min_from_least.
      * intros Hk. rewrite dict_get_setitem_other by exact Hk.
        apply dict_get_pop_same.
      * intros k Hk Hold. rewrite dict_get_setitem_other by exact Hk.
        now rewrite dict_get_pop_other.
  - apply Z.leb_gt in Hfull. unfold bind, with_store.
    eexists. split; [reflexivity|]. cbn [_store ttl maxsize].
    repeat split.
    + apply dict_get_setitem_same.
    + intros _ k Hk. now apply dict_get_setitem_other.
    + intros Hle. lia.
Qed.

Lemma set_evicts_oldest_whenever_full_witness :
  exists c',
    set two_full "c" 30 5%Q = Ok c' /\
    dict_get "c" (_store c') = Some (5%Q, 30) /\
    dict_get "a" (_store c') = None /\
    dict_get "b" (_store c') = Some (2%Q, 20).
Proof.
  destruct (set_evicts_oldest_whenever_full Z two_full "c" 30 5%Q)
    as (c' & Hset & _ & _ & Hkey & _ & Hfull).
  - intros _. discriminate.
  - exists c'. split; [exact Hset|]. split; [exact Hkey|].
    vm_compute in Hset. injection Hset as <-. split; reflexivity.
Defined.

End CacheFacts.

(** ** The resolver *)

Module ResolverFacts.

Import Pandas Market.

(** The provider has nothing for [cand] at [(p, iv)]: the call returns
    [None] or an empty frame. *)
Definition yields_nothing (yf : Provider) (cand p iv : string) : Prop :=
  exists t, yf cand = Ok t /\
            (history t p iv = Ok None \/
             exists df, history t p iv = Ok (Some df) /\ empty df = true).

Definition label_of (a : string * (string * string)) : string :=
  attempt_label (fst a) (fst (snd a)) (snd (snd a)).

Definition call_of (a : string * (string * string)) : string * string * string :=
  (fst a, fst (snd a), snd (snd a)).

(** A two-day frame as the provider returns it. *)
Definition two_days : DataFrame :=
  mkDataFrame (Some "Date") [Num 19000; Num 19001]
    [("Open", [Num 99; Num 100]); ("Close", [Num 100; Num 101])].

Definition ticker_with (h : string -> string -> result (option DataFrame)) : Ticker :=
  mkTicker h (Ok None).

(** A provider that knows the symbol only with the ".NS" suffix. *)
Definition nse_only : Provider :=
  fun symbol =>
    Ok (ticker_with (fun _ _ =>
          if String.eqb symbol "TCS.NS" then Ok (Some two_days) else Ok None)).

(** A provider whose first call fails in transport and which has data
    for every other request. *)
Definition fails_once : Provider :=
  fun symbol =>
    Ok (ticker_with (fun p iv =>
          if String.eqb symbol "TCS" && String.eqb p "1y" && String.eqb iv "1d"
          then Raise (UpstreamError "connection timed out")
          else Ok (Some two_days))).

(** A provider that has nothing at all. *)
Definition knows_nothing : Provider :=
  fun _ => Ok (ticker_with (fun _ _ => Ok None)).

Lemma fetch_hist_once_nothing yf cand p iv :
  yields_nothing yf cand p iv ->
  _fetch_hist_once yf cand p iv = Ok DataFrame_empty.
Proof.
  intros (t & Ht & [Hh | (df & Hh & He)]); unfold _fetch_hist_once;
    rewrite Ht; cbn [bind]; rewrite Hh; cbn [bind]; [reflexivity|].
  now rewrite He.
Qed.

Section Loops.

Variable yf : Provider.
Variable c : TTLCache.
Variable key : string.
Variable now_set : Q.

Lemma combos_loop_exhausted cand combos tried log :
  (forall p iv, In (p, iv) combos -> yields_nothing yf cand p iv) ->
  combos_loop yf c key now_set cand combos tried log =
    (Exhausted,
     (tried ++ map (fun pi => attempt_label cand (fst pi) (snd pi)) combos)%list,
     (log ++ map (fun pi => (cand, fst pi, snd pi)) combos)%list).
Proof.
  revert tried log.
  induction combos as [|[p iv] combos IH]; intros tried log Hall; cbn [combos_loop map].
  - now rewrite !app_nil_r.
  - rewrite (fetch_hist_once_nothing yf cand p iv) by (apply Hall; now left).
    cbn [empty DataFrame_empty index columns negb].
    rewrite IH by (intros p' iv' Hin; apply Hall; now right).
    now rewrite <- !app_assoc.
Qed.

Lemma candidates_loop_exhausted candidates combos tried log :
  (forall cand p iv, In cand candidates -> In (p, iv) combos ->
                     yields_nothing yf cand p iv) ->
  candidates_loop yf c key now_set candidates combos tried log =
    (Exhausted,
     (tried ++ map label_of (list_prod candidates combos))%list,
     (log ++ map call_of (list_prod candidates combos))%list).
Proof.
  revert tried log.
  induction candidates as [|cand candidates IH]; intros tried log Hall;
    cbn [candidates_loop list_prod map].
  - now rewrite !app_nil_r.
  - rewrite combos_loop_exhausted by (intros p iv Hin; apply Hall; [now left|exact Hin]).
    rewrite IH by (intros cand' p iv Hc Hin; apply Hall; [now right|exact Hin]).
    rewrite !map_app, !map_map, !app_assoc. reflexivity.
Qed.

Lemma combos_loop_returned cand combos tried log df c' tried' log' :
  combos_loop yf c key now_set cand combos tried log = (Returned df c', tried', log') ->
  Cache.set c key (Frame df) now_set = Ok c' /\ log' <> [].
Proof.
  revert tried log.
  induction combos as [|[p iv] combos IH]; intros tried log; cbn [combos_loop].
  - discriminate.
  - destruct (_fetch_hist_once yf cand p iv) as [df0|e]; [|discriminate].
    destruct (negb (empty df0)).
    + destruct (Cache.set c key (Frame df0) now_set) as [c0|e] eqn:Hset;
        [|discriminate].
      intros H. injection H as <- <- _ <-. split; [exact Hset|].
      intros Hnil. now apply app_eq_nil in Hnil as [_ Hnil].
    + apply IH.
Qed.

Lemma candidates_loop_returned candidates combos tried log df c' tried' log' :
  candidates_loop yf c key now_set candidates combos tried log
    = (Returned df c', tried', log') ->
  Cache.set c key (Frame df) now_set = Ok c' /\ log' <> [].
Proof.
  revert tried log.
  induction candidates as [|cand candidates IH]; intros tried log;
    cbn [candidates_loop].
  - discriminate.
  - destruct (combos_loop yf c key now_set cand combos tried log)
      as [[[df0 c0|e|] tr] lg] eqn:Hc.
    + intros H. injection H as <- <- <- <-.
      eapply combos_loop_returned; eassumption.
    + discriminate.
    + apply IH.
Qed.

End Loops.

(** C1 at a failing input: the first attempt for "TCS" fails in
    transport.  [fetch_history] has no handler around the attempt, so the
    failure leaves the function after that one call, although the next
    pair would have given data. *)
Lemma fetch_history_surfaces_transport_failure :
  let run := fetch_history fails_once cache (Some "tcs") "1y" "1d" 0 0 in
  outcome run = Raise (UpstreamError "connection timed out") /\
  calls run = [("TCS", "1y", "1d")] /\
  exists df, _fetch_hist_once fails_once "TCS" "6mo" "1d" = Ok df /\
             empty df = false.
Proof.
  cbv zeta. split; [reflexivity|]. split; [reflexivity|].
  eexists. split; reflexivity.
Qed.

(** C5: on a cache miss, when the provider has nothing for any candidate
    at any combination, [fetch_history] raises the not-found error, whose
    message lists every attempt in the order made: each candidate with
    each of the six combinations, 18 attempts for a symbol without a dot
    and 6 for one with a dot. *)
Theorem fetch_history_not_found_lists_every_attempt :
  forall (yf : Provider) (c : TTLCache) (symbol : option string)
         (period interval : string) (now_get now_set : Q),
    let sym := _normalize_symbol symbol in
    let attempts := list_prod (candidates_of sym) (combos_of period interval) in
    let run := fetch_history yf c symbol period interval now_get now_set in
    fst (Cache.get c (hist_key sym period interval) now_get) = None ->
    (forall cand p iv,
        In cand (candidates_of sym) -> In (p, iv) (combos_of period interval) ->
        yields_nothing yf cand p iv) ->
    outcome run = Raise (ValueError (not_found_message sym (map label_of attempts))) /\
    calls run = map call_of attempts /\
    List.length attempts = (if Py.contains "." sym then 6 else 18)%nat.
Proof.
  intros yf c symbol period interval now_get now_set sym attempts run Hmiss Hall.
  subst run. unfold fetch_history. fold sym.
  destruct (Cache.get c (hist_key sym period interval) now_get) as [r c1].
  cbn [fst] in Hmiss. subst r.
  rewrite candidates_loop_exhausted by exact Hall.
  cbn [outcome calls app]. fold attempts.
  split; [reflexivity|]. split; [reflexivity|].
  subst attempts. rewrite length_prod. unfold candidates_of.
  destruct (Py.contains "." sym); reflexivity.
Qed.

Lemma fetch_history_not_found_lists_every_attempt_witness :
  outcome (fetch_history knows_nothing cache (Some " infy ") "1y" "1d" 0 0)
  = Raise (ValueError
      ("No price history found for symbol: INFY. Tried: "
       ++ "INFY(1y,1d), INFY(6mo,1d), INFY(3mo,1d), INFY(1mo,1d), "
       ++ "INFY(1y,1wk), INFY(max,1wk), "
       ++ "INFY.NS(1y,1d), INFY.NS(6mo,1d), INFY.NS(3mo,1d), INFY.NS(1mo,1d), "
       ++ "INFY.NS(1y,1wk), INFY.NS(max,1wk), "
       ++ "INFY.BO(1y,1d), INFY.BO(6mo,1d), INFY.BO(3mo,1d), INFY.BO(1mo,1d), "
       ++ "INFY.BO(1y,1wk), INFY.BO(max,1wk)")).
Proof.
  destruct (fetch_history_not_found_lists_every_attempt
              knows_nothing cache (Some " infy ") "1y" "1d" 0 0) as (Hout & _ & _).
  - reflexivity.
  - intros cand p iv _ _. eexists. split; [reflexivity|]. now left.
  - rewrite Hout. reflexivity.
Defined.

(** C4: a resolution that went to the provider and succeeded is stored
    under the key of the normalised symbol and the requested period and
    interval, with the time of the store.  A second call whose symbol
    normalises to the same text, made before that entry expires, returns
    the stored value, makes no provider call and leaves the cache as it
    is, whatever the provider would answer now. *)
Theorem fetch_history_second_call_served_from_cache :
  forall (yf yf' : Provider) (c : TTLCache) (s1 s2 : option string)
         (period interval : string) (now_get now_set now_get' now_set' : Q)
         (v : Any),
    let run := fetch_history yf c s1 period interval now_get now_set in
    let run' := fetch_history yf' (cache_after run) s2 period interval
                              now_get' now_set' in
    _normalize_symbol s1 = _normalize_symbol s2 ->
    outcome run = Ok v ->
    calls run <> [] ->
    (now_get' - now_set <= inject_Z (Cache.ttl c))%Q ->
    Cache.dict_get (hist_key (_normalize_symbol s1) period interval)
                   (Cache._store (cache_after run)) = Some (now_set, v) /\
    outcome run' = Ok v /\
    calls run' = [] /\
    cache_after run' = cache_after run.
Proof.
  intros yf yf' c s1 s2 period interval now_get now_set now_get' now_set' v
         run run' Hsym Hok Hcalls Hfresh.
  assert (Hstored :
            Cache.dict_get (hist_key (_normalize_symbol s1) period interval)
                           (Cache._store (cache_after run)) = Some (now_set, v)
            /\ Cache.ttl (cache_after run) = Cache.ttl c).
  { subst run. clear run'. unfold fetch_history in *.
    destruct (Cache.get c (hist_key (_normalize_symbol s1) period interval) now_get)
      as [[cached|] c1] eqn:Hget.
    - cbn [calls] in Hcalls. congruence.
    - destruct (candidates_loop yf c1 _ now_set _ _ [] [])
        as [[[df c2|e|] tr] lg] eqn:Hloop; cbn [outcome cache_after] in *;
        try discriminate.
      injection Hok as <-.
      apply candidates_loop_returned in Hloop as [Hset _].
      apply CacheFacts.set_stores_key in Hset as [Hkey Httl].
      split; [exact Hkey|].
      rewrite Httl. eapply CacheFacts.get_keeps_ttl. exact Hget. }
  destruct Hstored as [Hkey Httl]. split; [exact Hkey|].
  subst run'. unfold fetch_history at 1 2 3. rewrite <- Hsym.
  rewrite (CacheFacts.get_fresh _ _ _ _ _ Hkey) by (rewrite Httl; exact Hfresh).
  cbn [outcome calls cache_after]. repeat split.
Qed.

Lemma fetch_history_second_call_served_from_cache_witness :
  let run := fetch_history nse_only cache (Some " tcs") "1y" "1d" 0 1 in
  let run' := fetch_history knows_nothing (cache_after run) (Some "TCS") "1y" "1d"
                            300 301 in
  calls run = [ ("TCS", "1y", "1d"); ("TCS", "6mo", "1d"); ("TCS", "3mo", "1d");
                ("TCS", "1mo", "1d"); ("TCS", "1y", "1wk"); ("TCS", "max", "1wk");
                ("TCS.NS", "1y", "1d") ] /\
  Cache.dict_get "hist:TCS:1y:1d" (Cache._store (cache_after run)) <> None /\
  Cache.dict_get "hist:TCS.NS:1y:1d" (Cache._store (cache_after run)) = None /\
  outcome run' = outcome run /\
  calls run' = [].
Proof.
  cbv zeta.
  split; [reflexivity|]. split; [discriminate|]. split; [reflexivity|].
  edestruct (fetch_history_second_call_served_from_cache
              nse_only knows_nothing cache (Some " tcs") (Some "TCS")
              "1y" "1d" 0 1 300 301) as (_ & Hout & Hcalls & _).
  - reflexivity.
  - reflexivity.
  - discriminate.
  - vm_compute. discriminate.
  - split; [exact Hout | exact Hcalls].
Defined.

End ResolverFacts.

(** ** The summary scorer *)

Module ScorerFacts.

Import Market.

(* the float literal 0.15 *)
Definition float_0_15 : Q := 5404319552844595 # 36028797018963968.

Definition reasons_in_table_order : list string :=
  [ "RSI in neutral-to-positive zone";
    "MACD histogram positive (bullish momentum)";
    "Reasonable P/E valuation";
    "Healthy ROE (>12%)";
    "Manageable debt (D/E < 100)" ].

(** The input of the scoring example: RSI 50, MACD histogram 0.5,
    P/E 20, ROE 0.15, D/E 50, nothing else known. *)
Definition example_indicators : Indicators.IndicatorSet :=
  Indicators.mkIndicatorSet
    (Indicators.mkRsiEntry [50%Q] (Some 50%Q))
    (Indicators.mkMacdEntry [] [] [(1 # 2)%Q] (Some (1 # 2)%Q))
    (Indicators.mkMovingAverages [] []).

Definition example_fundamentals : Fundamentals :=
  mkFundamentals (Some (Num 20)) None (Some (Num float_0_15))
                 (Some (Num 50)) None None.

(** C3, as stated, fails: on the example input the score is not 4 and
    the reasons are not four. *)
Lemma example_summary_is_not_four :
  let s := rule_based_summary example_indicators example_fundamentals in
  score s <> 4 /\ List.length (reasons s) <> 4%nat.
Proof.
  cbv zeta. split; vm_compute; discriminate.
Qed.

(** C3, amended: with RSI 50, MACD histogram 0.5, P/E 20, ROE 0.15 and
    D/E 50 all five rules fire: the score is 5, the signal is
    "Strong Buy", and the reasons are the five of the rule table, in its
    order. *)
Theorem summary_example_scores_five :
  forall (ind : Indicators.IndicatorSet) (f : Fundamentals),
    Indicators.latest (Indicators.rsi_entry ind) = Some 50%Q ->
    Indicators.hist_latest (Indicators.macd_entry ind) = Some (1 # 2)%Q ->
    trailingPe f = Some (Num 20) ->
    returnOnEquity f = Some (Num float_0_15) ->
    debtToEquity f = Some (Num 50) ->
    let s := rule_based_summary ind f in
    score s = 5 /\ signal s = "Strong Buy" /\ reasons s = reasons_in_table_order.
Proof.
  intros ind f Hrsi Hmacd Hpe Hroe Hde s. subst s.
  unfold rule_based_summary. rewrite Hrsi, Hmacd, Hpe, Hroe, Hde.
  repeat split.
Qed.

Lemma summary_example_scores_five_witness :
  let s := rule_based_summary example_indicators example_fundamentals in
  score s = 5 /\ signal s = "Strong Buy" /\
  List.length (reasons s) = 5%nat.
Proof.
  cbv zeta.
  destruct (summary_example_scores_five example_indicators example_fundamentals)
    as (Hs & Hsig & Hr); try reflexivity.
  rewrite Hs, Hsig, Hr. repeat split.
Defined.

End ScorerFacts.

(** ** The indicator engine *)

Module IndicatorFacts.

Import Pandas Indicators.

(** *** Series without a value *)

Definition all_nan (s : Series) : Prop := forall x, In x s -> x = NaN.

Lemma dropna_all_nan s : all_nan s -> dropna s = [].
Proof.
  induction s as [|x s IH]; intros H; [reflexivity|].
  rewrite (H x (or_introl eq_refl)). cbn [dropna].
  apply IH. intros y Hy. apply H. now right.
Qed.

Lemma all_nan_map (f : pynum -> pynum) s :
  f NaN = NaN -> all_nan s -> all_nan (map f s).
Proof.
  intros Hf H y Hy. apply in_map_iff in Hy as (x & <- & Hx).
  now rewrite (H x Hx).
Qed.

Lemma all_nan_zip_div_l a b : all_nan a -> all_nan (zip_with PyNum.div a b).
Proof.
  revert b. induction a as [|x a IH]; intros [|y b] H z Hz;
    cbn [zip_with] in Hz; try contradiction.
  destruct Hz as [<-|Hz].
  - now rewrite (H x (or_introl eq_refl)).
  - eapply IH; [|exact Hz]. intros w Hw. apply H. now right.
Qed.

Lemma all_nan_rolling_mean_short n s :
  (List.length s < n)%nat -> all_nan (rolling_mean n s).
Proof.
  intros Hlen x Hx. unfold rolling_mean in Hx.
  apply in_map_iff in Hx as (i & <- & Hi). apply in_seq in Hi.
  destruct (Nat.leb_spec n (i + 1)); [lia|reflexivity].
Qed.

Lemma length_zip_with {A B C : Type} (f : A -> B -> C) l1 l2 :
  List.length (zip_with f l1 l2) = Nat.min (List.length l1) (List.length l2).
Proof.
  revert l2. induction l1 as [|a l1 IH]; intros [|b l2]; cbn; auto.
Qed.

Lemma length_diff s : List.length (diff s) = List.length s.
Proof.
  destruct s as [|x s]; [reflexivity|]. cbn [diff List.length].
  rewrite length_zip_with. cbn [List.length]. lia.
Qed.

(** With fewer points than the period no window is ever full. *)
Lemma rsi_all_nan_below_period close period :
  (List.length close < period)%nat -> all_nan (rsi close period).
Proof.
  intros Hlen. unfold rsi.
  apply all_nan_map; [reflexivity|].
  apply all_nan_zip_div_l. apply all_nan_rolling_mean_short.
  unfold clip_lower0. now rewrite length_map, length_diff.
Qed.

(** *** Series without a gap *)

(** The weighted means of a gap-free series, as [ewm_loop] computes
    them from the previous mean [w]. *)
Fixpoint ewm_values (alpha w : Q) (qs : list Q) : list Q :=
  match qs with
  | [] => []
  | c :: qs' =>
      let w' := if Qeq_bool w c then w
                else ((1 * (1 - alpha) * w + alpha * c) / (1 * (1 - alpha) + alpha))%Q in
      w' :: ewm_values alpha w' qs'
  end.

Definition ewm_list (alpha : Q) (qs : list Q) : list Q :=
  match qs with
  | [] => []
  | q0 :: qs' => q0 :: ewm_values alpha q0 qs'
  end.

Definition alpha_of (span : Z) : Q := (2 / (inject_Z span + 1))%Q.

Lemma ewm_loop_nums alpha w qs :
  ewm_loop alpha (Num w) 1 (map Num qs) = map Num (ewm_values alpha w qs).
Proof.
  revert w. induction qs as [|c qs IH]; intros w; [reflexivity|].
  cbn [map ewm_loop ewm_values].
  destruct (Qeq_bool w c); cbn [map]; now rewrite IH.
Qed.

Lemma ewm_mean_nums span qs :
  1 <= span ->
  ewm_mean span (map Num qs) = Ok (map Num (ewm_list (alpha_of span) qs)).
Proof.
  intros Hspan. unfold ewm_mean.
  destruct (Z.ltb_spec span 1); [lia|].
  destruct qs as [|q0 qs]; [reflexivity|].
  cbn [map ewm_list]. now rewrite ewm_loop_nums.
Qed.

Lemma length_ewm_values alpha w qs :
  List.length (ewm_values alpha w qs) = List.length qs.
Proof.
  revert w. induction qs as [|c qs IH]; intros w; cbn; auto.
Qed.

Lemma length_ewm_list alpha qs :
  List.length (ewm_list alpha qs) = List.length qs.
Proof.
  destruct qs; cbn; [reflexivity|]. now rewrite length_ewm_values.
Qed.

Lemma zip_sub_nums a b :
  zip_with PyNum.sub (map Num a) (map Num b) = map Num (zip_with Qminus a b).
Proof.
  revert b. induction a as [|x a IH]; intros [|y b]; cbn; auto.
  now rewrite IH.
Qed.

Lemma dropna_nums qs : dropna (map Num qs) = qs.
Proof.
  induction qs as [|q qs IH]; cbn; [reflexivity|]. now rewrite IH.
Qed.

Lemma gap_free_nums (s : Series) :
  Forall (fun x => x <> NaN) s -> exists qs, s = map Num qs.
Proof.
  induction 1 as [|x s Hx _ (qs & ->)].
  - now exists [].
  - destruct x as [|q]; [congruence|]. now exists (q :: qs).
Qed.

(** *** No division by zero in [rsi] *)

Definition nonneg (x : pynum) : Prop :=
  match x with NaN => True | Num q => (0 <= q)%Q end.

Lemma In_firstn {A : Type} (n : nat) (l : list A) x : In x (firstn n l) -> In x l.
Proof.
  intros H. rewrite <- (firstn_skipn n l). apply in_or_app. now left.
Qed.

Lemma In_skipn {A : Type} (n : nat) (l : list A) x : In x (skipn n l) -> In x l.
Proof.
  intros H. rewrite <- (firstn_skipn n l). apply in_or_app. now right.
Qed.

Lemma all_nums_nonneg w qs :
  all_nums w = Some qs -> (forall x, In x w -> nonneg x) ->
  (0 <= Qsum qs)%Q.
Proof.
  revert qs. induction w as [|[|q] w IH]; intros qs Hall Hw; cbn in Hall.
  - injection Hall as <-. apply Qle_refl.
  - discriminate.
  - destruct (all_nums w) as [qs'|]; [|discriminate].
    injection Hall as <-. cbn [Qsum fold_right].
    change 0%Q with (0 + 0)%Q. apply Qplus_le_compat.
    + exact (Hw (Num q) (or_introl eq_refl)).
    + apply IH; [reflexivity|]. intros x Hx. apply Hw. now right.
Qed.

Lemma rolling_mean_nonneg n s :
  (forall x, In x s -> nonneg x) ->
  forall y, In y (rolling_mean n s) -> nonneg y.
Proof.
  intros Hs y Hy. unfold rolling_mean in Hy.
  apply in_map_iff in Hy as (i & <- & _).
  destruct (n <=? i + 1)%nat; [|exact I].
  destruct (all_nums (window n s i)) as [qs|] eqn:Hall; [|exact I].
  cbn [nonneg]. unfold Qdiv. apply Qmult_le_0_compat.
  - eapply all_nums_nonneg; [exact Hall|].
    intros x Hx. apply Hs. unfold window in Hx.
    eapply In_skipn, In_firstn, Hx.
  - apply Qinv_le_0_compat. rewrite <- (Zle_Qle 0). lia.
Qed.

Lemma clip_lower0_nonneg s : forall x, In x (clip_lower0 s) -> nonneg x.
Proof.
  intros x Hx. apply in_map_iff in Hx as ([|q] & <- & _); [exact I|].
  destruct (Qlt_bool q 0) eqn:E; cbn [nonneg]; [apply Qle_refl|].
  now apply Qlt_bool_false_iff in E.
Qed.

Lemma neg_clip_upper0_nonneg s :
  forall x, In x (map PyNum.neg (clip_upper0 s)) -> nonneg x.
Proof.
  intros x Hx. apply in_map_iff in Hx as (y & <- & Hy).
  apply in_map_iff in Hy as ([|q] & <- & _); [exact I|].
  destruct (Qlt_bool 0 q) eqn:E; cbn [PyNum.neg nonneg].
  - discriminate.
  - apply Qlt_bool_false_iff in E.
    apply Qle_minus_iff in E. now rewrite Qplus_0_l in E.
Qed.

(** The quotient [gain / loss] is divided by a loss that is not zero,
    and is itself never negative, so that [1 + rs] is not zero. *)
Lemma rsi_divisors_not_zero close period :
  let delta := diff close in
  let gain := rolling_mean period (clip_lower0 delta) in
  let loss := rolling_mean period (map PyNum.neg (clip_upper0 delta)) in
  let rs := zip_with PyNum.div gain (replace_zero_nan loss) in
  (forall d q, In d (replace_zero_nan loss) -> d = Num q -> ~ (q == 0)%Q) /\
  (forall x q, In x rs -> x = Num q -> ~ (1 + q == 0)%Q).
Proof.
  intros delta gain loss rs.
  assert (Hd : forall d q, In d (replace_zero_nan loss) -> d = Num q ->
                           (0 < q)%Q).
  { intros d q Hin ->. apply in_map_iff in Hin as ([|l] & Heq & Hl);
      [discriminate|].
    pose proof (rolling_mean_nonneg _ _ (neg_clip_upper0_nonneg delta) _ Hl) as Hn.
    cbn [nonneg] in Hn. unfold PyNum.is_zero in Heq.
    destruct (Qeq_bool l 0) eqn:E; [discriminate|].
    injection Heq as <-. apply Qeq_bool_neq in E.
    apply Qle_lt_or_eq in Hn as [Hlt|Heq0]; [exact Hlt|].
    exfalso. apply E. now symmetry. }
  split.
  - intros d q Hin Heq Hz. specialize (Hd d q Hin Heq).
    rewrite Hz in Hd. discriminate Hd.
  - assert (Hrs : forall a b x q,
               (forall y, In y a -> nonneg y) ->
               (forall d q', In d b -> d = Num q' -> (0 < q')%Q) ->
               In x (zip_with PyNum.div a b) -> x = Num q -> (0 <= q)%Q).
    { induction a as [|g a IH]; intros [|l b] x q Ha Hb Hin Hx;
        cbn [zip_with] in Hin; try contradiction.
      destruct Hin as [<-|Hin].
      - destruct g as [|g], l as [|l]; cbn in Hx; try discriminate.
        destruct (PyNum.is_zero l); [discriminate|].
        injection Hx as <-. unfold Qdiv. apply Qmult_le_0_compat.
        + exact (Ha (Num g) (or_introl eq_refl)).
        + apply Qinv_le_0_compat, Qlt_le_weak.
          exact (Hb (Num l) l (or_introl eq_refl) eq_refl).
      - eapply IH; [| |exact Hin|exact Hx].
        + intros y Hy. apply Ha. now right.
        + intros d q' Hd' Hq'. eapply Hb; [right; exact Hd'|exact Hq']. }
    intros x q Hin Hx Hzero.
    assert (Hq : (0 <= q)%Q).
    { eapply (Hrs gain (replace_zero_nan loss) x q); try eassumption.
      apply rolling_mean_nonneg, clip_lower0_nonneg. }
    assert (H1 : (0 < 1 + q)%Q).
    { apply Qlt_le_trans with (1 + 0)%Q; [reflexivity|].
      apply Qplus_le_compat; [apply Qle_refl|exact Hq]. }
    rewrite Hzero in H1. discriminate H1.
Qed.

(** *** The documented recurrence *)

(** The recurrence as the design document words it:
    [ema[0] = series[0]], [ema[i] = alpha * series[i] + (1 - alpha) * ema[i-1]]. *)
Fixpoint recurrence_from (alpha prev : Q) (qs : list Q) : list Q :=
  match qs with
  | [] => []
  | x :: qs' =>
      let e := (alpha * x + (1 - alpha) * prev)%Q in
      e :: recurrence_from alpha e qs'
  end.

Definition recurrence (alpha : Q) (qs : list Q) : list Q :=
  match qs with
  | [] => []
  | x0 :: qs' => x0 :: recurrence_from alpha x0 qs'
  end.

Lemma ewm_step_eq (alpha w c : Q) :
  ((if Qeq_bool w c then w
    else (1 * (1 - alpha) * w + alpha * c) / (1 * (1 - alpha) + alpha))
   == alpha * c + (1 - alpha) * w)%Q.
Proof.
  destruct (Qeq_bool w c) eqn:E.
  - apply Qeq_bool_eq in E. rewrite <- E. ring.
  - field. intros H.
    assert (H1 : (1 - alpha + alpha == 1)%Q) by ring.
    rewrite H1 in H. discriminate H.
Qed.

(** On a gap-free series the code computes the documented recurrence. *)
Lemma ewm_values_recurrence alpha w w' qs :
  (w == w')%Q ->
  Forall2 Qeq (ewm_values alpha w qs) (recurrence_from alpha w' qs).
Proof.
  revert w w'. induction qs as [|c qs IH]; intros w w' Hw; cbn; constructor.
  - rewrite ewm_step_eq, Hw. reflexivity.
  - apply IH. rewrite ewm_step_eq, Hw. reflexivity.
Qed.

Lemma ema_gap_free_recurrence (qs : list Q) (span : Z) :
  1 <= span ->
  exists es, ema (map Num qs) span = Ok (map Num es) /\
             Forall2 Qeq es (recurrence (alpha_of span) qs).
Proof.
  intros Hspan. exists (ewm_list (alpha_of span) qs).
  split; [now apply ewm_mean_nums|].
  destruct qs as [|q0 qs]; cbn; constructor; [reflexivity|].
  now apply ewm_values_recurrence.
Qed.

Lemma macd_gap_free (qs : list Q) :
  let ema_fast := ewm_list (alpha_of 12) qs in
  let ema_slow := ewm_list (alpha_of 26) qs in
  let macd_line := zip_with Qminus ema_fast ema_slow in
  let signal_line := ewm_list (alpha_of 9) macd_line in
  macd (map Num qs) 12 26 9 =
    Ok (map Num macd_line, map Num signal_line,
        map Num (zip_with Qminus macd_line signal_line)).
Proof.
  cbv zeta. unfold macd, ema.
  rewrite !ewm_mean_nums by lia. cbn [bind].
  rewrite zip_sub_nums, ewm_mean_nums by lia. cbn [bind].
  now rewrite zip_sub_nums.
Qed.

Lemma macd_defaults_return (close : Series) :
  exists r, macd close 12 26 9 = Ok r.
Proof.
  unfold macd, ema, ewm_mean. cbn [Z.ltb Z.compare Pos.compare Pos.compare_cont bind].
  eexists. reflexivity.
Qed.

(** C6: a close series of fewer than 14 points gives an empty RSI
    sequence and no latest RSI value. *)
Theorem rsi_empty_below_fourteen_points :
  forall (df : DataFrame) (close : Series),
    close_of df = Ok close ->
    (List.length close < 14)%nat ->
    exists out,
      compute_all_indicators df = Ok out /\
      series (rsi_entry out) = [] /\
      latest (rsi_entry out) = None.
Proof.
  intros df close Hclose Hlen. unfold compute_all_indicators.
  rewrite Hclose. cbn [bind].
  destruct (macd_defaults_return close) as ([[m_line m_sig] m_hist] & ->).
  cbn [bind]. eexists. split; [reflexivity|].
  cbn [rsi_entry series latest].
  assert (Hr : dropna (round 2 (rsi close 14)) = []).
  { apply dropna_all_nan. apply all_nan_map; [reflexivity|].
    now apply rsi_all_nan_below_period. }
  rewrite Hr. split; reflexivity.
Qed.

(** A frame of thirteen days. *)
Definition thirteen_days : DataFrame :=
  mkDataFrame (Some "Date")
    (map (fun i => PyNum.of_Z (Z.of_nat i)) (seq 0 13))
    [("Close", map (fun i => PyNum.of_Z (100 + Z.of_nat i)) (seq 0 13))].

Lemma rsi_empty_below_fourteen_points_witness :
  exists out,
    compute_all_indicators thirteen_days = Ok out /\
    series (rsi_entry out) = [] /\
    latest (rsi_entry out) = None.
Proof.
  eapply (rsi_empty_below_fourteen_points thirteen_days).
  - reflexivity.
  - cbn. lia.
Defined.

(** C7: the exponential mean of [10, 20, 30] with span 2 is
    [10, 16.67, 25.56] to within 0.01 at each point, and its values
    follow the recurrence with [alpha = 2/3]. *)
Theorem ema_of_10_20_30_span_2 :
  exists e0 e1 e2 : Q,
    ema [Num 10; Num 20; Num 30] 2 = Ok [Num e0; Num e1; Num e2] /\
    (Qabs (e0 - 10) <= 1 # 100)%Q /\
    (Qabs (e1 - (1667 # 100)) <= 1 # 100)%Q /\
    (Qabs (e2 - (2556 # 100)) <= 1 # 100)%Q /\
    (e0 == 10)%Q /\
    (e1 == (2 # 3) * 20 + (1 - (2 # 3)) * e0)%Q /\
    (e2 == (2 # 3) * 30 + (1 - (2 # 3)) * e1)%Q.
Proof.
  do 3 eexists. split; [reflexivity|].
  repeat split; vm_compute; congruence.
Qed.

(** C10: for a close series without undefined values the MACD line, the
    signal line and the histogram each hold one value per input point,
    and the histogram is the line minus the signal at every point. *)
Theorem macd_sequences_cover_every_point :
  forall (df : DataFrame) (close : Series),
    close_of df = Ok close ->
    close <> [] ->
    Forall (fun x => x <> NaN) close ->
    exists out,
      compute_all_indicators df = Ok out /\
      List.length (line (macd_entry out)) = List.length close /\
      List.length (signal (macd_entry out)) = List.length close /\
      List.length (hist (macd_entry out)) = List.length close /\
      hist (macd_entry out)
        = zip_with Qminus (line (macd_entry out)) (signal (macd_entry out)).
Proof.
  intros df close Hclose _ Hgap.
  destruct (gap_free_nums close Hgap) as (qs & ->).
  unfold compute_all_indicators. rewrite Hclose. cbn [bind].
  rewrite macd_gap_free. cbn [bind]. eexists. split; [reflexivity|].
  cbn [macd_entry line signal hist]. rewrite !dropna_nums.
  rewrite !length_zip_with, !length_ewm_list, !length_zip_with,
    !length_ewm_list, length_map.
  repeat split; lia.
Qed.

(** A frame of three days. *)
Definition three_days : DataFrame :=
  mkDataFrame (Some "Date") [Num 0; Num 1; Num 2]
    [("Close", [Num 10; Num 20; Num 30])].

Lemma macd_sequences_cover_every_point_witness :
  exists out,
    compute_all_indicators three_days = Ok out /\
    List.length (line (macd_entry out)) = 3%nat /\
    List.length (signal (macd_entry out)) = 3%nat /\
    List.length (hist (macd_entry out)) = 3%nat /\
    hist (macd_entry out)
      = zip_with Qminus (line (macd_entry out)) (signal (macd_entry out)).
Proof.
  destruct (macd_sequences_cover_every_point
              three_days [Num 10; Num 20; Num 30])
    as (out & Hout & Hline & Hsig & Hhist & Hdiff).
  - reflexivity.
  - discriminate.
  - repeat constructor; discriminate.
  - exists out. repeat split; assumption.
Defined.

End IndicatorFacts.

(** ** The batch quote fetcher *)

From Stdlib Require Import Lqa.

Module QuoteFacts.

Import Pandas Market.

(** *** The loops *)

Lemma chunks_from_concat buf seq size :
  List.concat (_chunks_from buf seq size) = (buf ++ seq)%list.
Proof.
  revert buf. induction seq as [|s seq IH]; intros buf; cbn [_chunks_from].
  - destruct buf; cbn; now rewrite ?app_nil_r.
  - destruct (size <=? _).
    + cbn [List.concat]. rewrite IH. cbn [app]. now rewrite <- app_assoc.
    + rewrite IH. now rewrite <- app_assoc.
Qed.

Lemma batch_loop_map yf now batch out :
  batch_loop yf now batch out = (out ++ map (quote_for yf now) batch)%list.
Proof.
  revert out. induction batch as [|sym batch IH]; intros out; cbn [batch_loop map].
  - now rewrite app_nil_r.
  - rewrite IH. now rewrite <- app_assoc.
Qed.

Lemma chunks_loop_map yf now sleep_ms chunks out slept :
  fst (chunks_loop yf now sleep_ms chunks out slept)
  = (out ++ map (quote_for yf now) (List.concat chunks))%list.
Proof.
  revert out slept.
  induction chunks as [|batch chunks IH]; intros out slept;
    cbn [chunks_loop List.concat map fst].
  - now rewrite app_nil_r.
  - rewrite IH, batch_loop_map, map_app. now rewrite <- app_assoc.
Qed.

(** The list returned holds the quote of every symbol kept from the
    input, in the order of the input. *)
Lemma fetch_quotes_map yf symbols chunk_size sleep_ms now :
  fst (fetch_quotes yf symbols chunk_size sleep_ms now)
  = map (quote_for yf now)
        (map _normalize_symbol (filter truthy_symbol symbols)).
Proof.
  unfold fetch_quotes, _chunks.
  now rewrite chunks_loop_map, chunks_from_concat.
Qed.

(** The candidate loop writes to the item at most once. *)
Lemma quote_candidates_cases yf candidates item :
  quote_candidates yf candidates item = item \/
  exists r, quote_candidates yf candidates item = write_quote item r.
Proof.
  induction candidates as [|c candidates IH]; cbn [quote_candidates].
  - now left.
  - destruct (read_quote yf c) as [r|e]; [right; now exists r|exact IH].
Qed.

Lemma quote_candidates_all_raise yf candidates item :
  (forall c, In c candidates -> exists e, read_quote yf c = Raise e) ->
  quote_candidates yf candidates item = item.
Proof.
  induction candidates as [|c candidates IH]; intros H; cbn [quote_candidates].
  - reflexivity.
  - destruct (H c (or_introl eq_refl)) as (e & ->).
    apply IH. intros c' Hc'. apply H. now right.
Qed.

Lemma symbol_write_quote item r : symbol (write_quote item r) = symbol item.
Proof.
  unfold write_quote.
  repeat match goal with
         | |- context [match ?x with _ => _ end] => destruct x
         end; reflexivity.
Qed.

Lemma ts_write_quote item r : ts (write_quote item r) = ts item.
Proof.
  unfold write_quote.
  repeat match goal with
         | |- context [match ?x with _ => _ end] => destruct x
         end; reflexivity.
Qed.

Lemma symbol_quote_for yf now sym : symbol (quote_for yf now sym) = sym.
Proof.
  unfold quote_for.
  destruct (quote_candidates_cases yf (candidates_of sym) (new_item sym now))
    as [->|(r & ->)]; [reflexivity|apply symbol_write_quote].
Qed.

Lemma ts_quote_for yf now sym : ts (quote_for yf now sym) = now.
Proof.
  unfold quote_for.
  destruct (quote_candidates_cases yf (candidates_of sym) (new_item sym now))
    as [->|(r & ->)]; [reflexivity|apply ts_write_quote].
Qed.

(** *** The derived fields *)

(** [change] and [change_pct] agree with [price] and [previous_close]. *)
Definition change_fields_ok (q : Quote) : Prop :=
  match price q, previous_close q with
  | Some p, Some pc =>
      if PyNum.truthy pc
      then
        let ch := F64.round 4 (F64.sub p pc) in
        change q = Some ch /\
        change_pct q
        = Some (F64.round 3 (F64.div (F64.mul (PyNum.of_Z 100) ch) pc))
      else change q = None /\ change_pct q = None
  | _, _ => change q = None /\ change_pct q = None
  end.

Lemma change_fields_ok_write sym now r :
  change_fields_ok (write_quote (new_item sym now) r).
Proof.
  unfold write_quote, change_fields_ok, new_item.
  destruct r as [[p|] [pc|] curr mcap]; cbn;
    try destruct (PyNum.truthy pc) eqn:Ht; cbn;
    destruct curr as [cu|]; try destruct (Py.truthy_str cu); cbn;
    destruct (truthy_opt mcap); cbn; try destruct mcap as [m|]; cbn;
    try destruct (PyNum.to_int m); cbn; rewrite ?Ht; auto.
Qed.

Lemma change_fields_ok_quote_for yf now sym :
  change_fields_ok (quote_for yf now sym).
Proof.
  unfold quote_for.
  destruct (quote_candidates_cases yf (candidates_of sym) (new_item sym now))
    as [->|(r & ->)].
  - cbn. auto.
  - apply change_fields_ok_write.
Qed.

(** *** Examples *)

(** A provider that knows "TCS" through its fast quote and fails in
    transport for every other symbol. *)
Definition tcs_only : Provider :=
  fun c =>
    if String.eqb c "TCS"
    then Ok (mkTicker
               (fun _ _ => Ok None)
               (Ok (Some (mkFastInfo
                            (fun k => if String.eqb k "last_price" then Some (Num 105)
                                      else if String.eqb k "previous_close"
                                           then Some (Num 100)
                                           else None)
                            (fun k => if String.eqb k "currency" then Some "INR"
                                      else None)))))
    else Raise (UpstreamError "connection reset").

Definition example_symbols : list (option string) :=
  [Some "bad"; None; Some " tcs "].

Definition example_quotes : list Quote :=
  fst (fetch_quotes tcs_only example_symbols 25 200 1700000000).

(** "Rounded to [n] decimal places", for a float [x] and a float result
    [r]: [r] is the float nearest to a whole number [k] of units 10^-n,
    and no whole number of units is nearer to [x] than [k]; where two
    are equally near, [k] is the even one.  What is not a finite number
    stays so. *)
Definition rounded_to (n : nat) (x r : pynum) : Prop :=
  match x with
  | NaN => r = NaN
  | Num d =>
      exists k : Z,
        (Qabs (inject_Z k - d * PyNum.pow10 n) <= 1 # 2)%Q /\
        ((Qabs (inject_Z k - d * PyNum.pow10 n) == 1 # 2)%Q -> Z.even k = true) /\
        r = F64.nearest (inject_Z k / PyNum.pow10 n)
  end.

Lemma round_half_even_nearest (q : Q) :
  (Qabs (inject_Z (PyNum.round_half_even q) - q) <= 1 # 2)%Q /\
  ((Qabs (inject_Z (PyNum.round_half_even q) - q) == 1 # 2)%Q ->
   Z.even (PyNum.round_half_even q) = true).
Proof.
  unfold PyNum.round_half_even.
  pose proof (Qfloor_le q) as Hlo. pose proof (Qlt_floor q) as Hhi.
  rewrite inject_Z_plus in Hhi. change (inject_Z 1) with 1%Q in Hhi.
  destruct (Qcompare_spec (q - inject_Z (Qfloor q)) (1 # 2)) as [He|Hl|Hg].
  - destruct (Z.even (Qfloor q)) eqn:Ev.
    + split; [|intros _; exact Ev].
      rewrite Qabs_neg by lra. lra.
    + split.
      * rewrite inject_Z_plus. change (inject_Z 1) with 1%Q.
        rewrite Qabs_pos by lra. lra.
      * intros _. change (Qfloor q + 1) with (Z.succ (Qfloor q)).
        rewrite Z.even_succ, <- Z.negb_even, Ev. reflexivity.
  - rewrite Qabs_neg by lra. split; [lra|]. intros H. exfalso. lra.
  - rewrite inject_Z_plus. change (inject_Z 1) with 1%Q.
    rewrite Qabs_pos by lra. split; [lra|]. intros H. exfalso. lra.
Qed.

(** [round(x, n)] rounds to [n] decimal places. *)
Lemma round_is_rounded_to (n : nat) (x : pynum) :
  rounded_to n x (F64.round n x).
Proof.
  destruct x as [|d]; cbn [rounded_to F64.round]; [reflexivity|].
  exists (PyNum.round_half_even (d * PyNum.pow10 n)).
  destruct (round_half_even_nearest (d * PyNum.pow10 n)) as [Hle Hev].
  split; [exact Hle|]. split; [exact Hev|reflexivity].
Qed.

(** The feed of one symbol: last price 400.01, previous close 400.0, both
    as the floats they are. *)
Definition float_400_01 : Q := 1759262584906711 # 4398046511104.
Definition float_0_01 : Q := 5764607523034235 # 576460752303423488.
Definition float_0_003 : Q := 3458764513820541 # 1152921504606846976.

Definition one_cent_up : Provider :=
  fun _ =>
    Ok (mkTicker
          (fun _ _ => Ok None)
          (Ok (Some (mkFastInfo
                       (fun k => if String.eqb k "last_price"
                                 then Some (Num float_400_01)
                                 else if String.eqb k "previous_close"
                                      then Some (Num 400)
                                      else None)
                       (fun _ => None))))).

(** C8: in every quote returned, [change] and [change_pct] are present
    exactly when a price and a non-zero previous close are.  Then
    [change] is the float difference of price and previous close rounded
    to 4 decimal places, and [change_pct] is 100 times that change over
    the previous close, in float arithmetic, rounded to 3 decimal
    places. *)
Theorem fetch_quotes_change_fields :
  forall (yf : Provider) (symbols : list (option string))
         (chunk_size sleep_ms now : Z) (q : Quote),
    In q (fst (fetch_quotes yf symbols chunk_size sleep_ms now)) ->
    let resolved :=
      exists p pc, price q = Some p /\ previous_close q = Some pc /\
                   PyNum.truthy pc = true in
    (change q <> None <-> resolved) /\
    (change_pct q <> None <-> resolved) /\
    (forall p pc,
        price q = Some p -> previous_close q = Some pc ->
        PyNum.truthy pc = true ->
        exists ch cp,
          change q = Some ch /\
          change_pct q = Some cp /\
          rounded_to 4 (F64.sub p pc) ch /\
          rounded_to 3 (F64.div (F64.mul (PyNum.of_Z 100) ch) pc) cp).
Proof.
  intros yf symbols chunk_size sleep_ms now q Hin resolved. subst resolved.
  rewrite fetch_quotes_map in Hin.
  apply in_map_iff in Hin as (sym & <- & _).
  pose proof (change_fields_ok_quote_for yf now sym) as Hok.
  unfold change_fields_ok in Hok.
  destruct (quote_for yf now sym) as [sy pr cu prev ch chp mc t].
  cbn [price previous_close change change_pct] in *.
  destruct pr as [p|]; destruct prev as [pc|];
    try destruct (PyNum.truthy pc) eqn:Ht; cbv zeta in Hok;
    destruct Hok as [-> ->];
    (split; [|split]);
    try (split;
         [ intros H; try congruence; exists p, pc; auto
         | intros (p0 & pc0 & H1 & H2 & H3); try discriminate;
           injection H2 as <-; congruence ]);
    intros p0 pc0 H1 H2 H3; try discriminate;
    injection H1 as <-; injection H2 as <-; try congruence.
  eexists. eexists. split; [reflexivity|]. split; [reflexivity|].
  split; apply round_is_rounded_to.
Qed.

Lemma fetch_quotes_change_fields_witness :
  let q := quote_for one_cent_up 0 "TCS" in
  In q (fst (fetch_quotes one_cent_up [Some "tcs"] 25 200 0)) /\
  (exists ch cp,
      change q = Some (Num ch) /\ change_pct q = Some (Num cp) /\
      (ch == float_0_01)%Q /\ (cp == float_0_003)%Q) /\
  (exists ch cp,
      change q = Some ch /\ change_pct q = Some cp /\
      rounded_to 4 (F64.sub (Num float_400_01) (Num 400)) ch /\
      rounded_to 3 (F64.div (F64.mul (PyNum.of_Z 100) ch) (Num 400)) cp).
Proof.
  cbv zeta.
  assert (Hin : In (quote_for one_cent_up 0 "TCS")
                   (fst (fetch_quotes one_cent_up [Some "tcs"] 25 200 0))).
  { rewrite fetch_quotes_map. left. reflexivity. }
  split; [exact Hin|]. split.
  - eexists. eexists. split; [vm_compute; reflexivity|].
    split; [vm_compute; reflexivity|]. split; vm_compute; reflexivity.
  - destruct (fetch_quotes_change_fields one_cent_up [Some "tcs"] 25 200 0 _ Hin)
      as (_ & _ & Hval).
    apply Hval; reflexivity.
Defined.

(** C9: [fetch_quotes] is total: whatever the provider raises is taken
    up by the candidate loop.  The list returned has one quote per symbol
    kept from the input, in order, stamped with the time of the call.  A
    symbol whose candidates all fail, or whose first answering candidate
    has nothing, keeps the item it started with: every field other than
    the symbol and the time is absent. *)
Theorem fetch_quotes_keeps_unresolved_symbols :
  forall (yf : Provider) (symbols : list (option string))
         (chunk_size sleep_ms now : Z),
    let out := fst (fetch_quotes yf symbols chunk_size sleep_ms now) in
    map symbol out = map _normalize_symbol (filter truthy_symbol symbols) /\
    (forall q, In q out -> ts q = now) /\
    (forall q, In q out ->
       (forall c, In c (candidates_of (symbol q)) ->
                  exists e, read_quote yf c = Raise e) ->
       q = mkQuote (symbol q) None None None None None None now) /\
    (forall q, In q out ->
       read_quote yf (symbol q) = Ok (mkReading None None None None) ->
       q = mkQuote (symbol q) None None None None None None now).
Proof.
  intros yf symbols chunk_size sleep_ms now out. subst out.
  rewrite fetch_quotes_map.
  set (syms := map _normalize_symbol (filter truthy_symbol symbols)).
  split; [|split; [|split]].
  - rewrite map_map. rewrite <- (map_id syms) at 2.
    apply map_ext. intros sym. apply symbol_quote_for.
  - intros q Hin. apply in_map_iff in Hin as (sym & <- & _).
    apply ts_quote_for.
  - intros q Hin Hall. apply in_map_iff in Hin as (sym & <- & _).
    rewrite symbol_quote_for in *. unfold quote_for.
    now rewrite quote_candidates_all_raise.
  - intros q Hin Hread. apply in_map_iff in Hin as (sym & <- & _).
    rewrite symbol_quote_for in *. unfold quote_for, candidates_of.
    destruct (Py.contains "." sym); cbn [quote_candidates];
      rewrite Hread; reflexivity.
Qed.

Lemma fetch_quotes_keeps_unresolved_symbols_witness :
  map symbol example_quotes = ["BAD"; "TCS"] /\
  In (mkQuote "BAD" None None None None None None 1700000000) example_quotes.
Proof.
  destruct (fetch_quotes_keeps_unresolved_symbols tcs_only example_symbols
              25 200 1700000000) as (Hsyms & _ & Hblank & _).
  split; [exact Hsyms|].
  assert (Hin : In (quote_for tcs_only 1700000000 "BAD") example_quotes).
  { vm_compute. left. reflexivity. }
  rewrite (Hblank _ Hin) in Hin.
  - exact Hin.
  - intros c Hc. exists (UpstreamError "connection reset").
    vm_compute in Hc. destruct Hc as [<-|[<-|[<-|[]]]]; reflexivity.
Defined.

End QuoteFacts.

(** * Further properties *)

(** ** The TTL cache: look-up, expiry, capacity *)

Module CacheMore.

Import Cache.

Section Store.

Context {V : Type}.
Implicit Types (d : Store V) (c : TTLCache V) (k key : string) (item : Q * V).

Definition keys d : list string := map fst d.

Lemma dict_get_none_keys key d : dict_get key d = None <-> ~ In key (keys d).
Proof.
  unfold keys. induction d as [|[k it] d IH]; cbn.
  - split; [intros _ []|reflexivity].
  - destruct (String.eqb k key) eqn:E.
    + apply String.eqb_eq in E. split; [discriminate|]. intros H. exfalso. auto.
    + apply String.eqb_neq in E. rewrite IH. tauto.
Qed.

Lemma keys_setitem_present key item d :
  In key (keys d) -> keys (dict_setitem key item d) = keys d.
Proof.
  unfold keys. induction d as [|[k it] d IH]; cbn; [intros []|].
  destruct (String.eqb k key) eqn:E; cbn; [reflexivity|].
  apply String.eqb_neq in E. intros [H|H]; [congruence|]. now rewrite IH.
Qed.

Lemma keys_setitem_absent key item d :
  ~ In key (keys d) -> keys (dict_setitem key item d) = (keys d ++ [key])%list.
Proof.
  unfold keys. induction d as [|[k it] d IH]; cbn; [reflexivity|].
  destruct (String.eqb k key) eqn:E; cbn.
  - apply String.eqb_eq in E. intros H. exfalso. auto.
  - intros H. rewrite IH by tauto. reflexivity.
Qed.

Lemma keys_pop key d : keys (dict_pop key d) = filter (fun k => negb (String.eqb k key)) (keys d).
Proof.
  unfold keys. induction d as [|[k it] d IH]; cbn; [reflexivity|].
  destruct (String.eqb k key); cbn; now rewrite IH.
Qed.

Lemma length_setitem key item d :
  (List.length (dict_setitem key item d) <= S (List.length d))%nat.
Proof.
  induction d as [|[k it] d IH]; cbn; [lia|].
  destruct (String.eqb k key); cbn; lia.
Qed.

Lemma length_pop_le key d : (List.length (dict_pop key d) <= List.length d)%nat.
Proof.
  induction d as [|[k it] d IH]; cbn; [lia|].
  destruct (String.eqb k key); cbn; lia.
Qed.

Lemma length_pop_present key d :
  In key (keys d) -> (List.length (dict_pop key d) < List.length d)%nat.
Proof.
  unfold keys. induction d as [|[k it] d IH]; cbn; [intros []|].
  destruct (String.eqb k key) eqn:E; cbn.
  - intros _. pose proof (length_pop_le key d). lia.
  - apply String.eqb_neq in E. intros [H|H]; [congruence|].
    specialize (IH H). lia.
Qed.

Lemma NoDup_keys_setitem key item d :
  NoDup (keys d) -> NoDup (keys (dict_setitem key item d)).
Proof.
  intros Hnd. destruct (in_dec string_dec key (keys d)) as [Hin|Hout].
  - now rewrite keys_setitem_present.
  - rewrite keys_setitem_absent by exact Hout.
    apply NoDup_app; [exact Hnd|repeat constructor; intros []|].
    intros x Hx [<-|[]]. contradiction.
Qed.

Lemma NoDup_keys_pop key d : NoDup (keys d) -> NoDup (keys (dict_pop key d)).
Proof.
  intros Hnd. rewrite keys_pop. now apply NoDup_filter.
Qed.

(** The caches that arise from [init] by [get] and [set]. *)
Inductive reachable (t m : Z) : TTLCache V -> Prop :=
| reach_init : reachable t m (init t m)
| reach_get c key now :
    reachable t m c -> reachable t m (snd (get c key now))
| reach_set c key value now c' :
    reachable t m c -> set c key value now = Ok c' -> reachable t m c'.

Definition time_of (kv : string * (Q * V)) : Q := fst (snd kv).

Lemma min_from_split (best : string * (Q * V)) (items : Store V) :
  let m := min_from best items in
  (m = best /\ forall kv, In kv items -> (time_of best <= time_of kv)%Q) \/
  (exists pre post,
      items = (pre ++ m :: post)%list /\
      (time_of m < time_of best)%Q /\
      (forall kv, In kv pre -> (time_of m < time_of kv)%Q) /\
      (forall kv, In kv post -> (time_of m <= time_of kv)%Q)).
Proof.
  cbv zeta. revert best.
  induction items as [|kv items IH]; intros best; cbn [min_from].
  - left. split; [reflexivity|intros kv []].
  - fold (time_of kv). fold (time_of best).
    destruct (Qlt_bool (time_of kv) (time_of best)) eqn:E.
    + apply Qlt_bool_iff in E. right.
      destruct (IH kv) as [[Hm Hall]|(pre & post & Hitems & Hlt & Hpre & Hpost)].
      * exists [], items. rewrite Hm. repeat split; auto. intros x [].
      * exists (kv :: pre), post. rewrite Hitems at 1. repeat split; auto.
        -- eapply Qlt_trans; eassumption.
        -- intros x [<-|Hx]; auto.
    + apply Qlt_bool_false_iff in E.
      destruct (IH best) as [[Hm Hall]|(pre & post & Hitems & Hlt & Hpre & Hpost)].
      * left. split; [exact Hm|]. intros x [<-|Hx]; auto.
      * right. exists (kv :: pre), post. rewrite Hitems at 1. repeat split; auto.
        intros x [<-|Hx]; auto. eapply Qlt_le_trans; eassumption.
Qed.

Lemma min_by_time_In (d : Store V) oldest :
  min_by_time d = Ok oldest -> In oldest d.
Proof.
  destruct d as [|kv d]; cbn [min_by_time]; [discriminate|].
  intros H. injection H as <-. apply CacheFacts.min_from_In.
Qed.

(** X1: a value that was set is returned by every [get] made while its
    age is at most the ttl; such a [get] leaves the cache as it is (the
    stored time is not refreshed). *)
Theorem set_then_get_returns_value :
  forall c c' key (value : V) (stored now : Q),
    set c key value stored = Ok c' ->
    (now - stored <= inject_Z (ttl c))%Q ->
    get c' key now = (Some value, c').
Proof.
  intros c c' key value stored now Hset Hage.
  apply CacheFacts.set_stores_key in Hset as [Hkey Httl].
  apply (CacheFacts.get_fresh c' key now stored value Hkey).
  now rewrite Httl.
Qed.

(** X2: [get] answers with a value exactly when the key has an entry
    whose age is at most the ttl, and then with the value of that
    entry. *)
Theorem get_some_iff_fresh_entry :
  forall c key (now : Q) (v : V),
    fst (get c key now) = Some v <->
    exists ts, dict_get key (_store c) = Some (ts, v) /\
               (now - ts <= inject_Z (ttl c))%Q.
Proof.
  intros c key now v. unfold get.
  destruct (dict_get key (_store c)) as [[ts v0]|].
  - destruct (Qlt_bool (inject_Z (ttl c)) (now - ts)) eqn:E; cbn [fst].
    + apply Qlt_bool_iff in E. split; [discriminate|].
      intros (ts' & Heq & Hle). injection Heq as <- <-.
      exfalso. exact (Qlt_not_le _ _ E Hle).
    + apply Qlt_bool_false_iff in E. split.
      * intros Heq. injection Heq as <-. now exists ts.
      * intros (ts' & Heq & _). injection Heq as _ <-. reflexivity.
  - cbn [fst]. split; [discriminate|]. intros (ts & Heq & _). discriminate.
Qed.

(** X3: a [get] on an entry older than the ttl answers [None] and removes
    that entry; the entries of all other keys, the ttl and the capacity
    stay as they are. *)
Theorem get_expired_removes_only_that_key :
  forall c key (now ts : Q) (v : V),
    dict_get key (_store c) = Some (ts, v) ->
    (inject_Z (ttl c) < now - ts)%Q ->
    exists c',
      get c key now = (None, c') /\
      dict_get key (_store c') = None /\
      (forall k, k <> key -> dict_get k (_store c') = dict_get k (_store c)) /\
      ttl c' = ttl c /\ maxsize c' = maxsize c.
Proof.
  intros c key now ts v Hget Hold. unfold get. rewrite Hget.
  apply Qlt_bool_iff in Hold. rewrite Hold.
  eexists. split; [reflexivity|]. cbn [_store with_store ttl maxsize].
  repeat split.
  - apply CacheFacts.dict_get_pop_same.
  - intros k Hk. now apply CacheFacts.dict_get_pop_other.
Qed.

(** X4: [set] raises exactly when the store is empty and the capacity is
    zero or less ([min] of nothing); with a capacity of at least one it
    always succeeds. *)
Theorem set_raises_iff_no_capacity :
  forall c key (value : V) (now : Q),
    (exists e, set c key value now = Raise e) <->
    (maxsize c <= 0 /\ _store c = []).
Proof.
  intros c key value now. unfold set.
  destruct (maxsize c <=? len (_store c)) eqn:Hfull.
  - apply Z.leb_le in Hfull.
    destruct (_store c) as [|kv d] eqn:Hst; cbn [min_by_time bind].
    + split; [intros _; split; [exact Hfull|reflexivity]|].
      intros _. eexists. reflexivity.
    + split; [intros (e & He); discriminate|]. intros [_ Hnil]. discriminate.
  - apply Z.leb_gt in Hfull. cbn [bind].
    split; [intros (e & He); discriminate|].
    intros [Hcap Hnil]. rewrite Hnil in Hfull. cbn in Hfull. lia.
Qed.

(** X5: the entry [set] evicts from a full store is the first one, in
    insertion order, among those with the least insertion time: every
    entry before it is strictly newer, every entry after it is at least
    as new. *)
Theorem eviction_takes_first_oldest :
  forall (d : Store V) (oldest : string * (Q * V)),
    min_by_time d = Ok oldest ->
    exists pre post,
      d = (pre ++ oldest :: post)%list /\
      (forall kv, In kv pre -> (time_of oldest < time_of kv)%Q) /\
      (forall kv, In kv post -> (time_of oldest <= time_of kv)%Q).
Proof.
  intros [|best items] oldest Hmin; cbn [min_by_time] in Hmin; [discriminate|].
  injection Hmin as <-.
  destruct (min_from_split best items)
    as [[Hm Hall]|(pre & post & Hitems & Hlt & Hpre & Hpost)].
  - exists [], items. rewrite Hm. repeat split; auto. intros kv [].
  - exists (best :: pre), post. rewrite Hitems at 1. repeat split; auto.
    intros kv [<-|Hkv]; auto.
Qed.

Lemma reachable_invariant :
  forall (t m : Z) c,
    1 <= m ->
    reachable t m c ->
    ttl c = t /\ maxsize c = m /\
    NoDup (keys (_store c)) /\ len (_store c) <= m.
Proof.
  intros t m c Hm Hreach.
  induction Hreach as [|c key now Hreach (Ht & Hmax & Hnd & Hlen)
                        |c key value now c' Hreach (Ht & Hmax & Hnd & Hlen) Hset].
  - cbn. repeat split; [constructor|unfold len; cbn; lia].
  - unfold get. destruct (dict_get key (_store c)) as [[ts v]|];
      [destruct (Qlt_bool _ _)|]; cbn [snd]; auto.
    cbn [with_store ttl maxsize _store]. repeat split; auto.
    + now apply NoDup_keys_pop.
    + pose proof (length_pop_le key (_store c)). unfold len in *. lia.
  - unfold set in Hset.
    destruct (maxsize c <=? len (_store c)) eqn:Hfull.
    + apply Z.leb_le in Hfull.
      destruct (min_by_time (_store c)) as [oldest|e] eqn:Hmin;
        cbn [bind] in Hset; [|discriminate].
      injection Hset as <-. cbn [with_store ttl maxsize _store].
      repeat split; auto.
      * now apply NoDup_keys_setitem, NoDup_keys_pop.
      * pose proof (length_setitem key (now, value)
                      (dict_pop (fst oldest) (_store c))) as H1.
        assert (H2 : (List.length (dict_pop (fst oldest) (_store c))
                      < List.length (_store c))%nat).
        { apply length_pop_present. unfold keys. apply in_map.
          now apply min_by_time_In. }
        unfold len in *. lia.
    + apply Z.leb_gt in Hfull. cbn [bind] in Hset. injection Hset as <-.
      cbn [with_store ttl maxsize _store]. repeat split; auto.
      * now apply NoDup_keys_setitem.
      * pose proof (length_setitem key (now, value) (_store c)) as H1.
        unfold len in *. lia.
Qed.

(** X6: every cache obtained from [init t m] with [m >= 1] by any sequence
    of [get] and [set] keeps its ttl and capacity, has no key twice and
    never holds more than [m] entries. *)
Theorem reachable_cache_within_capacity :
  forall (t m : Z) c,
    1 <= m ->
    reachable t m c ->
    ttl c = t /\ maxsize c = m /\
    NoDup (keys (_store c)) /\ len (_store c) <= m.
Proof.
  intros t m c Hm Hreach. now apply reachable_invariant.
Qed.

End Store.

Definition small : TTLCache Z := init 300 2.

Lemma set_then_get_returns_value_witness :
  exists c', set small "a" 7 10%Q = Ok c' /\ get c' "a" 310%Q = (Some 7, c').
Proof.
  eexists. split; [reflexivity|].
  apply (set_then_get_returns_value small _ "a" 7 10%Q 310%Q); [reflexivity|].
  vm_compute. discriminate.
Defined.

Lemma get_expired_removes_only_that_key_witness :
  exists c',
    get (mkTTLCache 300 2 [("a", (10%Q, 7)); ("b", (20%Q, 8))]) "a" 311%Q = (None, c') /\
    dict_get "a" (_store c') = None /\
    dict_get "b" (_store c') = Some (20%Q, 8).
Proof.
  destruct (get_expired_removes_only_that_key
              (mkTTLCache 300 2 [("a", (10%Q, 7)); ("b", (20%Q, 8))])
              "a" 311%Q 10%Q 7) as (c' & Hget & Hgone & Hrest & _).
  - reflexivity.
  - vm_compute. reflexivity.
  - exists c'. split; [exact Hget|]. split; [exact Hgone|].
    rewrite Hrest by discriminate. reflexivity.
Defined.

Lemma eviction_takes_first_oldest_witness :
  exists pre post,
    [("a", (5%Q, 1)); ("b", (3%Q, 2)); ("c", (3%Q, 3))]
    = (pre ++ ("b", (3%Q, 2)) :: post)%list /\
    (forall kv, In kv pre -> (3 < time_of kv)%Q) /\
    (forall kv, In kv post -> (3 <= time_of kv)%Q).
Proof.
  apply (eviction_takes_first_oldest
           [("a", (5%Q, 1)); ("b", (3%Q, 2)); ("c", (3%Q, 3))] ("b", (3%Q, 2))).
  reflexivity.
Defined.

Lemma reachable_cache_within_capacity_witness :
  exists c : TTLCache Z,
    reachable 300 2 c /\
    keys (_store c) = ["b"; "c"] /\
    len (_store c) <= 2.
Proof.
  pose proof (reach_init 300 2 : reachable 300 2 small) as H0.
  pose proof (reach_set 300 2 small "a" 10 1%Q
                (mkTTLCache 300 2 [("a", (1%Q, 10))]) H0 eq_refl) as H1.
  pose proof (reach_set 300 2 _ "b" 20 2%Q
                (mkTTLCache 300 2 [("a", (1%Q, 10)); ("b", (2%Q, 20))])
                H1 eq_refl) as H2.
  pose proof (reach_set 300 2 _ "c" 30 3%Q
                (mkTTLCache 300 2 [("b", (2%Q, 20)); ("c", (3%Q, 30))])
                H2 eq_refl) as Hr.
  eexists. split; [exact Hr|]. split; [reflexivity|].
  apply (reachable_cache_within_capacity 300 2 _ ltac:(lia) Hr).
Defined.

End CacheMore.

(** ** The indicator engine: ranges, warm-up, gaps *)

From Stdlib Require Import Lqa.

Module IndicatorMore.

Import Pandas Indicators IndicatorFacts.

(** *** RSI *)

(** [gain / loss] as [rsi] forms it. *)
Definition rsi_ratio (close : Series) (period : nat) : Series :=
  let delta := diff close in
  zip_with PyNum.div
    (rolling_mean period (clip_lower0 delta))
    (replace_zero_nan (rolling_mean period (map PyNum.neg (clip_upper0 delta)))).

Definition rsi_of_ratio (x : pynum) : pynum :=
  PyNum.sub (PyNum.of_Z 100)
            (PyNum.div (PyNum.of_Z 100) (PyNum.add (PyNum.of_Z 1) x)).

Lemma rsi_unfold close period :
  rsi close period = map rsi_of_ratio (rsi_ratio close period).
Proof. reflexivity. Qed.

Lemma zip_div_nonneg a b x q :
  (forall y, In y a -> nonneg y) ->
  (forall y, In y b -> nonneg y) ->
  In x (zip_with PyNum.div a b) -> x = Num q -> (0 <= q)%Q.
Proof.
  revert b. induction a as [|g a IH]; intros [|l b] Ha Hb Hin Hx;
    cbn [zip_with] in Hin; try contradiction.
  destruct Hin as [<-|Hin].
  - destruct g as [|g], l as [|l]; cbn in Hx; try discriminate.
    destruct (PyNum.is_zero l); [discriminate|].
    injection Hx as <-. unfold Qdiv. apply Qmult_le_0_compat.
    + exact (Ha (Num g) (or_introl eq_refl)).
    + apply Qinv_le_0_compat. exact (Hb (Num l) (or_introl eq_refl)).
  - eapply IH; [| |exact Hin|exact Hx].
    + intros y Hy. apply Ha. now right.
    + intros y Hy. apply Hb. now right.
Qed.

Lemma replace_zero_nan_nonneg s :
  (forall y, In y s -> nonneg y) ->
  forall y, In y (replace_zero_nan s) -> nonneg y.
Proof.
  intros Hs y Hy. apply in_map_iff in Hy as ([|q] & <- & Hq); [exact I|].
  destruct (PyNum.is_zero q); [exact I|]. exact (Hs _ Hq).
Qed.

Lemma rsi_ratio_nonneg close period x q :
  In x (rsi_ratio close period) -> x = Num q -> (0 <= q)%Q.
Proof.
  unfold rsi_ratio. apply zip_div_nonneg.
  - apply rolling_mean_nonneg, clip_lower0_nonneg.
  - apply replace_zero_nan_nonneg, rolling_mean_nonneg, neg_clip_upper0_nonneg.
Qed.

(** X7: every value [rsi] computes lies in the interval from 0 up to, but
    not including, 100: a window without any loss gives no value rather
    than 100. *)
Theorem rsi_values_between_0_and_100 :
  forall (close : Series) (period : nat) (v : Q),
    In (Num v) (rsi close period) -> (0 <= v)%Q /\ (v < 100)%Q.
Proof.
  intros close period v Hin. rewrite rsi_unfold in Hin.
  apply in_map_iff in Hin as (x & Hx & Hin).
  destruct x as [|q]; [discriminate|].
  pose proof (rsi_ratio_nonneg close period (Num q) q Hin eq_refl) as Hq.
  unfold rsi_of_ratio, PyNum.of_Z in Hx. cbn [PyNum.add PyNum.lift2 PyNum.div] in Hx.
  destruct (PyNum.is_zero (inject_Z 1 + q)); [discriminate|].
  cbn [PyNum.sub PyNum.lift2] in Hx. injection Hx as <-.
  change (inject_Z 100) with 100%Q. change (inject_Z 1) with 1%Q.
  assert (H1 : (0 < 1 + q)%Q) by lra.
  assert (H2 : (0 < 100 / (1 + q))%Q) by (apply Qlt_shift_div_l; lra).
  assert (H3 : (100 / (1 + q) <= 100)%Q) by (apply Qle_shift_div_r; lra).
  split; lra.
Qed.

Lemma rsi_values_between_0_and_100_witness :
  exists v, In (Num v) (rsi [Num 10; Num 12; Num 11; Num 13] 2) /\
            (0 <= v)%Q /\ (v < 100)%Q.
Proof.
  assert (Hin : exists v, In (Num v) (rsi [Num 10; Num 12; Num 11; Num 13] 2)).
  { eexists. vm_compute. right. right. left. reflexivity. }
  destruct Hin as (v & Hin). exists v. split; [exact Hin|].
  exact (rsi_values_between_0_and_100 _ _ _ Hin).
Defined.

(** *** Warm-up *)

Lemma In_firstn_seq i n a len :
  In i (firstn n (seq a len)) -> (a <= i < a + n)%nat.
Proof.
  revert a len. induction n as [|n IH]; intros a [|len]; cbn; try contradiction.
  intros [<-|Hin]; [lia|]. apply IH in Hin. lia.
Qed.

Lemma firstn_zip_with {A B C : Type} (f : A -> B -> C) n l1 l2 :
  firstn n (zip_with f l1 l2) = zip_with f (firstn n l1) (firstn n l2).
Proof.
  revert l1 l2. induction n as [|n IH]; intros [|a l1] [|b l2]; cbn; auto.
  now rewrite IH.
Qed.

Lemma length_rolling_mean n s : List.length (rolling_mean n s) = List.length s.
Proof. unfold rolling_mean. now rewrite length_map, length_seq. Qed.

(** A series that starts with NaN has no full window before position
    [n]. *)
Lemma rolling_mean_warm_up n s :
  (1 <= n)%nat -> all_nan (firstn n (rolling_mean n (NaN :: s))).
Proof.
  intros Hn x Hx. unfold rolling_mean in Hx. rewrite firstn_map in Hx.
  apply in_map_iff in Hx as (i & <- & Hi). apply In_firstn_seq in Hi.
  destruct (Nat.leb_spec n (i + 1)); [|reflexivity].
  unfold window. replace (i + 1 - n)%nat with 0%nat by lia. cbn [skipn].
  destruct n as [|n]; [lia|]. reflexivity.
Qed.

Lemma dropna_app (a b : Series) :
  dropna (a ++ b)%list = (dropna a ++ dropna b)%list.
Proof.
  induction a as [|[|q] a IH]; cbn; auto. now rewrite IH.
Qed.

Lemma length_dropna_le s : (List.length (dropna s) <= List.length s)%nat.
Proof.
  induction s as [|[|q] s IH]; cbn; lia.
Qed.

Lemma length_dropna_after_warm_up n s :
  all_nan (firstn n s) ->
  (List.length (dropna s) <= List.length s - n)%nat.
Proof.
  intros Hnan. rewrite <- (firstn_skipn n s) at 1.
  rewrite dropna_app, (dropna_all_nan _ Hnan). cbn [app].
  pose proof (length_dropna_le (skipn n s)) as H.
  now rewrite length_skipn in H.
Qed.

Lemma length_rsi close period : List.length (rsi close period) = List.length close.
Proof.
  unfold rsi. rewrite length_map, length_zip_with.
  unfold replace_zero_nan, clip_lower0, clip_upper0.
  repeat (rewrite ?length_map, ?length_rolling_mean).
  rewrite length_diff. lia.
Qed.

Lemma rsi_warm_up close period :
  (1 <= period)%nat -> all_nan (firstn period (rsi close period)).
Proof.
  intros Hp. unfold rsi. rewrite firstn_map.
  apply all_nan_map; [reflexivity|].
  rewrite firstn_zip_with. apply all_nan_zip_div_l.
  destruct close as [|x close].
  - intros y Hy. destruct period; cbn in Hy; contradiction.
  - cbn [diff clip_lower0 map]. now apply rolling_mean_warm_up.
Qed.

(** X8: the RSI sequence of [compute_all_indicators] has at most
    [len - 14] entries for a close series of [len] points: the first
    step has no change to measure, so the first value needs 15 points. *)
Theorem rsi_series_at_most_len_minus_14 :
  forall (df : DataFrame) (close : Series),
    close_of df = Ok close ->
    exists out,
      compute_all_indicators df = Ok out /\
      (List.length (series (rsi_entry out)) <= List.length close - 14)%nat.
Proof.
  intros df close Hclose. unfold compute_all_indicators.
  rewrite Hclose. cbn [bind].
  destruct (macd_defaults_return close) as ([[m_line m_sig] m_hist] & ->).
  cbn [bind]. eexists. split; [reflexivity|]. cbn [rsi_entry series].
  rewrite <- (length_rsi close 14), <- (length_map (PyNum.round_to 2)).
  apply length_dropna_after_warm_up. unfold round. rewrite firstn_map.
  apply all_nan_map; [reflexivity|]. apply rsi_warm_up. lia.
Qed.

(** A frame of fourteen days. *)
Definition fourteen_days : DataFrame :=
  mkDataFrame (Some "Date")
    (map (fun i => PyNum.of_Z (Z.of_nat i)) (seq 0 14))
    [("close", map (fun i => PyNum.of_Z (100 + Z.of_nat (i mod 3))) (seq 0 14))].

Lemma rsi_series_at_most_len_minus_14_witness :
  exists out,
    compute_all_indicators fourteen_days = Ok out /\
    series (rsi_entry out) = [].
Proof.
  destruct (rsi_series_at_most_len_minus_14 fourteen_days
              (map (fun i => PyNum.of_Z (100 + Z.of_nat (i mod 3))) (seq 0 14)))
    as (out & Hout & Hlen).
  - reflexivity.
  - exists out. split; [exact Hout|].
    destruct (series (rsi_entry out)); [reflexivity|].
    cbn in Hlen. lia.
Defined.

(** *** Prices that never fall *)

Fixpoint never_falls (qs : list Q) : Prop :=
  match qs with
  | a :: (b :: _) as rest => (a <= b)%Q /\ never_falls rest
  | _ => True
  end.

Definition zero_or_nan (x : pynum) : Prop :=
  match x with NaN => True | Num q => (q == 0)%Q end.

Lemma steps_of_rising qs prev :
  never_falls (prev :: qs) ->
  forall x, In x (zip_with PyNum.sub (map Num qs) (map Num (prev :: qs))) ->
            exists q, x = Num q /\ (0 <= q)%Q.
Proof.
  revert prev. induction qs as [|b qs IH]; intros prev Hr x Hx;
    cbn [map zip_with] in Hx; [contradiction|].
  destruct Hr as [Hle Hr]. destruct Hx as [<-|Hx].
  - eexists. split; [reflexivity|]. lra.
  - exact (IH b Hr x Hx).
Qed.

Lemma losses_of_rising qs :
  never_falls qs ->
  forall x, In x (map PyNum.neg (clip_upper0 (diff (map Num qs)))) -> zero_or_nan x.
Proof.
  intros Hr x Hx. apply in_map_iff in Hx as (y & <- & Hy).
  apply in_map_iff in Hy as (d & <- & Hd).
  destruct qs as [|a qs]; [contradiction|].
  cbn [map diff] in Hd. destruct Hd as [<-|Hd]; [exact I|].
  destruct (steps_of_rising qs a Hr d Hd) as (q & -> & Hq).
  destruct (Qlt_bool 0 q) eqn:E; cbn [PyNum.neg zero_or_nan]; [reflexivity|].
  apply Qlt_bool_false_iff in E. lra.
Qed.

Lemma Qsum_zero w qs :
  all_nums w = Some qs -> (forall x, In x w -> zero_or_nan x) ->
  (Qsum qs == 0)%Q.
Proof.
  revert qs. induction w as [|[|q] w IH]; intros qs Hall Hw; cbn in Hall.
  - injection Hall as <-. reflexivity.
  - discriminate.
  - destruct (all_nums w) as [qs'|]; [|discriminate].
    injection Hall as <-. cbn [Qsum fold_right].
    pose proof (Hw (Num q) (or_introl eq_refl)) as Hq. cbn in Hq.
    fold (Qsum qs'). rewrite Hq, (IH qs' eq_refl); [reflexivity|].
    intros x Hx. apply Hw. now right.
Qed.

Lemma rolling_mean_zero n s :
  (forall x, In x s -> zero_or_nan x) ->
  forall y, In y (rolling_mean n s) -> zero_or_nan y.
Proof.
  intros Hs y Hy. unfold rolling_mean in Hy.
  apply in_map_iff in Hy as (i & <- & _).
  destruct (n <=? i + 1)%nat; [|exact I].
  destruct (all_nums (window n s i)) as [qs|] eqn:Hall; [|exact I].
  cbn [zero_or_nan]. rewrite (Qsum_zero _ _ Hall).
  - unfold Qdiv. ring.
  - intros x Hx. apply Hs. unfold window in Hx.
    eapply In_skipn, In_firstn, Hx.
Qed.

Lemma replace_zero_all_nan s :
  (forall x, In x s -> zero_or_nan x) -> all_nan (replace_zero_nan s).
Proof.
  intros Hs y Hy. apply in_map_iff in Hy as ([|q] & <- & Hq); [reflexivity|].
  pose proof (Hs _ Hq) as Hz. cbn in Hz. unfold PyNum.is_zero.
  now rewrite (Qeq_eq_bool _ _ Hz).
Qed.

Lemma all_nan_zip_div_r a b : all_nan b -> all_nan (zip_with PyNum.div a b).
Proof.
  revert b. induction a as [|x a IH]; intros [|y b] H z Hz;
    cbn [zip_with] in Hz; try contradiction.
  destruct Hz as [<-|Hz].
  - rewrite (H y (or_introl eq_refl)). now destruct x.
  - eapply IH; [|exact Hz]. intros w Hw. apply H. now right.
Qed.

(** X9: for a close series without gaps that never falls, every window
    has a zero loss, which is replaced by NaN: the RSI sequence is empty
    and there is no latest RSI, however long the series. *)
Theorem rsi_undefined_when_prices_never_fall :
  forall (df : DataFrame) (qs : list Q),
    close_of df = Ok (map Num qs) ->
    never_falls qs ->
    exists out,
      compute_all_indicators df = Ok out /\
      series (rsi_entry out) = [] /\
      latest (rsi_entry out) = None.
Proof.
  intros df qs Hclose Hr. unfold compute_all_indicators.
  rewrite Hclose. cbn [bind].
  destruct (macd_defaults_return (map Num qs)) as ([[m_line m_sig] m_hist] & ->).
  cbn [bind]. eexists. split; [reflexivity|]. cbn [rsi_entry series latest].
  assert (Hnan : dropna (round 2 (rsi (map Num qs) 14)) = []).
  { apply dropna_all_nan. apply all_nan_map; [reflexivity|].
    unfold rsi. apply all_nan_map; [reflexivity|].
    apply all_nan_zip_div_r, replace_zero_all_nan, rolling_mean_zero.
    now apply losses_of_rising. }
  rewrite Hnan. split; reflexivity.
Qed.

(** Twenty days of a price that rises by one each day. *)
Definition rising_days : DataFrame :=
  mkDataFrame (Some "Date")
    (map (fun i => PyNum.of_Z (Z.of_nat i)) (seq 0 20))
    [("Close", map Num (map (fun i => inject_Z (100 + Z.of_nat i)) (seq 0 20)))].

Lemma rsi_undefined_when_prices_never_fall_witness :
  exists out,
    compute_all_indicators rising_days = Ok out /\
    series (rsi_entry out) = [] /\
    latest (rsi_entry out) = None.
Proof.
  apply (rsi_undefined_when_prices_never_fall rising_days
           (map (fun i => inject_Z (100 + Z.of_nat i)) (seq 0 20))).
  - reflexivity.
  - cbn. repeat split; unfold Qle; cbn; lia.
Defined.

(** *** EMA *)

Lemma ewm_loop_from_value alpha w old_wt vals :
  exists qs, ewm_loop alpha (Num w) old_wt vals = map Num qs /\
             List.length qs = List.length vals.
Proof.
  revert w old_wt. induction vals as [|cur vals IH]; intros w old_wt.
  - now exists [].
  - cbn [ewm_loop]. destruct cur as [|c].
    + destruct (IH w (old_wt * (1 - alpha))%Q) as (qs & -> & Hlen).
      exists (w :: qs). cbn. now rewrite Hlen.
    + destruct (Qeq_bool w c).
      * destruct (IH w 1%Q) as (qs & -> & Hlen).
        exists (w :: qs). cbn. now rewrite Hlen.
      * destruct (IH ((old_wt * (1 - alpha) * w + alpha * c)
                      / (old_wt * (1 - alpha) + alpha))%Q 1%Q) as (qs & -> & Hlen).
        eexists (_ :: qs). cbn. now rewrite Hlen.
Qed.

Lemma ewm_loop_before_value alpha old_wt pre x rest :
  all_nan pre ->
  exists qs,
    ewm_loop alpha NaN old_wt (pre ++ Num x :: rest)%list
    = (pre ++ Num x :: map Num qs)%list /\
    List.length qs = List.length rest.
Proof.
  induction pre as [|y pre IH]; intros Hnan.
  - cbn [app ewm_loop].
    destruct (ewm_loop_from_value alpha x old_wt rest) as (qs & -> & Hlen).
    now exists qs.
  - rewrite (Hnan y (or_introl eq_refl)). cbn [app ewm_loop].
    destruct IH as (qs & -> & Hlen); [intros z Hz; apply Hnan; now right|].
    now exists qs.
Qed.

(** X10: [ema] raises [ValueError] exactly for a span below 1.  Otherwise
    the result has the length of the series; leading gaps stay gaps, and
    from the first value on every position has a value, also where the
    series itself has a gap. *)
Theorem ema_defined_from_first_value :
  forall (pre rest : Series) (x : Q) (span : Z),
    all_nan pre ->
    (span < 1 ->
     ema (pre ++ Num x :: rest)%list span
     = Raise (ValueError "span must satisfy: span >= 1")) /\
    (1 <= span ->
     exists qs,
       ema (pre ++ Num x :: rest)%list span
       = Ok (pre ++ Num x :: map Num qs)%list /\
       List.length qs = List.length rest).
Proof.
  intros pre rest x span Hnan. unfold ema, ewm_mean.
  destruct (Z.ltb_spec span 1) as [Hlt|Hge]; (split; [intros H|intros H]);
    try lia; [reflexivity|].
  destruct pre as [|y pre]; cbn [app].
  - destruct (ewm_loop_from_value (2 / (inject_Z span + 1)) x 1 rest)
      as (qs & -> & Hlen).
    now exists qs.
  - rewrite (Hnan y (or_introl eq_refl)).
    destruct (ewm_loop_before_value (2 / (inject_Z span + 1)) 1 pre x rest)
      as (qs & -> & Hlen); [intros z Hz; apply Hnan; now right|].
    now exists qs.
Qed.

Lemma ema_defined_from_first_value_witness :
  exists qs,
    ema [NaN; Num 10; NaN; Num 30] 2 = Ok ([NaN] ++ Num 10 :: map Num qs)%list /\
    List.length qs = 2%nat.
Proof.
  destruct (ema_defined_from_first_value [NaN] [NaN; Num 30] 10 2) as [_ H].
  - intros y [<-|[]]. reflexivity.
  - destruct (H ltac:(lia)) as (qs & Heq & Hlen). now exists qs.
Defined.

Lemma ewm_loop_constant alpha c n :
  ewm_loop alpha (Num c) 1 (repeat (Num c) n) = repeat (Num c) n.
Proof.
  induction n as [|n IH]; [reflexivity|].
  cbn [repeat ewm_loop]. rewrite Qeq_bool_refl. now rewrite IH.
Qed.

Lemma ewm_mean_constant span c n :
  1 <= span -> ewm_mean span (repeat (Num c) n) = Ok (repeat (Num c) n).
Proof.
  intros Hspan. unfold ewm_mean. destruct (Z.ltb_spec span 1); [lia|].
  destruct n as [|n]; [reflexivity|]. cbn [repeat]. now rewrite ewm_loop_constant.
Qed.

(** X11: the exponential mean of a constant series is that series, for
    every span from 1 on. *)
Theorem ema_of_constant_series :
  forall (c : Q) (n : nat) (span : Z),
    1 <= span -> ema (repeat (Num c) n) span = Ok (repeat (Num c) n).
Proof.
  intros c n span Hspan. now apply ewm_mean_constant.
Qed.

Lemma ema_of_constant_series_witness :
  ema [Num 7; Num 7; Num 7] 12 = Ok [Num 7; Num 7; Num 7].
Proof.
  apply (ema_of_constant_series 7 3 12). lia.
Defined.

(** X12: on a series without gaps [ema] computes the recurrence
    [e0 = x0], [e_i = alpha * x_i + (1 - alpha) * e_(i-1)] with
    [alpha = 2 / (span + 1)], for every span from 1 on. *)
Theorem ema_follows_recurrence :
  forall (qs : list Q) (span : Z),
    1 <= span ->
    exists es,
      ema (map Num qs) span = Ok (map Num es) /\
      Forall2 Qeq es (recurrence (2 / (inject_Z span + 1)) qs).
Proof.
  intros qs span Hspan. exists (ewm_list (alpha_of span) qs).
  split; [now apply ewm_mean_nums|].
  destruct qs as [|q0 qs]; cbn; constructor; [reflexivity|].
  now apply ewm_values_recurrence.
Qed.

Lemma ema_follows_recurrence_witness :
  exists es,
    ema [Num 10; Num 20; Num 30; Num 20] 3 = Ok (map Num es) /\
    Forall2 Qeq es (recurrence (2 / (inject_Z 3 + 1)) [10; 20; 30; 20]%Q).
Proof.
  apply (ema_follows_recurrence [10; 20; 30; 20]%Q 3). lia.
Defined.

(** *** Moving averages *)

Lemma all_nums_nums qs : all_nums (map Num qs) = Some qs.
Proof.
  induction qs as [|q qs IH]; cbn; [reflexivity|]. now rewrite IH.
Qed.

Lemma length_dropna_map_defined {A : Type} (g : A -> pynum) l :
  (forall i, In i l -> g i <> NaN) ->
  List.length (dropna (map g l)) = List.length l.
Proof.
  induction l as [|i l IH]; intros H; cbn; [reflexivity|].
  destruct (g i) eqn:E.
  - exfalso. exact (H i (or_introl eq_refl) E).
  - cbn. rewrite IH; [reflexivity|]. intros j Hj. apply H. now right.
Qed.

(** On a series without gaps the rolling mean has a value from position
    [n - 1] on and nowhere before. *)
Lemma length_rolling_mean_gap_free n qs :
  (1 <= n)%nat ->
  List.length (dropna (rolling_mean n (map Num qs))) = (List.length qs - (n - 1))%nat.
Proof.
  intros Hn. unfold rolling_mean. rewrite length_map.
  set (L := List.length qs). set (k := Nat.min (n - 1) L).
  replace L with (k + (L - (n - 1)))%nat at 1 by lia.
  rewrite seq_app, map_app, dropna_app, length_app. cbn [Nat.add].
  rewrite (dropna_all_nan (map _ (seq 0 k))).
  - cbn [List.length Nat.add]. rewrite length_dropna_map_defined.
    + apply length_seq.
    + intros i Hi. apply in_seq in Hi.
      destruct (Nat.leb_spec n (i + 1)); [|lia].
      unfold window. rewrite skipn_map, firstn_map, all_nums_nums. discriminate.
  - intros x Hx. apply in_map_iff in Hx as (i & <- & Hi). apply in_seq in Hi.
    destruct (Nat.leb_spec n (i + 1)); [lia|reflexivity].
Qed.

(** X13: for a close series of [len] points without gaps the 50-point
    moving average has [len - 49] entries and the 200-point one
    [len - 199]; none when the series is shorter than the window. *)
Theorem moving_average_lengths :
  forall (df : DataFrame) (qs : list Q),
    close_of df = Ok (map Num qs) ->
    exists out,
      compute_all_indicators df = Ok out /\
      List.length (sma_50 (moving_averages out)) = (List.length qs - 49)%nat /\
      List.length (sma_200 (moving_averages out)) = (List.length qs - 199)%nat.
Proof.
  intros df qs Hclose. unfold compute_all_indicators.
  rewrite Hclose. cbn [bind]. rewrite macd_gap_free. cbn [bind].
  eexists. split; [reflexivity|]. cbn [moving_averages sma_50 sma_200].
  rewrite !length_rolling_mean_gap_free by lia. split; reflexivity.
Qed.

(** Sixty days of prices. *)
Definition sixty_days : DataFrame :=
  mkDataFrame (Some "Date")
    (map (fun i => PyNum.of_Z (Z.of_nat i)) (seq 0 60))
    [("Close", map Num (map (fun i => inject_Z (100 + Z.of_nat (i mod 7))) (seq 0 60)))].

Lemma moving_average_lengths_witness :
  exists out,
    compute_all_indicators sixty_days = Ok out /\
    List.length (sma_50 (moving_averages out)) = 11%nat /\
    List.length (sma_200 (moving_averages out)) = 0%nat.
Proof.
  destruct (moving_average_lengths sixty_days
              (map (fun i => inject_Z (100 + Z.of_nat (i mod 7))) (seq 0 60)))
    as (out & Hout & H50 & H200); [reflexivity|].
  exists out. split; [exact Hout|]. split; [exact H50|exact H200].
Defined.

(** *** The close column *)

Lemma column_present name df :
  has_column name df = true -> exists s, column name df = Ok s.
Proof.
  unfold has_column, column. intros H.
  apply existsb_exists in H as (c & Hin & Hc).
  destruct (find _ (columns df)) as [c'|] eqn:E; [now exists (snd c')|].
  exfalso. eapply find_none in E; [|exact Hin]. cbv beta in E. congruence.
Qed.

Lemma column_absent name df :
  has_column name df = false -> column name df = Raise (KeyError name).
Proof.
  unfold has_column, column. intros H.
  destruct (find _ (columns df)) as [c|] eqn:E; [|reflexivity].
  apply find_some in E as [Hin Hc].
  assert (Ht : existsb (fun c => String.eqb (fst c) name) (columns df) = true)
    by (apply existsb_exists; now exists c).
  congruence.
Qed.

(** X14: [compute_all_indicators] returns a result exactly when the frame
    has a column "Close" or a column "close"; without either it raises
    [KeyError] for "close".  No other column name is accepted. *)
Theorem compute_all_indicators_needs_close_column :
  forall df : DataFrame,
    (has_column "Close" df = false -> has_column "close" df = false ->
     compute_all_indicators df = Raise (KeyError "close")) /\
    (has_column "Close" df = true \/ has_column "close" df = true ->
     exists out, compute_all_indicators df = Ok out).
Proof.
  intros df. unfold compute_all_indicators, close_of. split.
  - intros H1 H2. rewrite H1, (column_absent _ _ H2). reflexivity.
  - intros H.
    assert (Hs : exists s, (if has_column "Close" df then column "Close" df
                            else column "close" df) = Ok s).
    { destruct (has_column "Close" df) eqn:E.
      - now apply column_present.
      - destruct H as [H|H]; [discriminate|]. now apply column_present. }
    destruct Hs as (s0 & ->). cbn [bind].
    destruct (macd_defaults_return s0) as ([[m_line m_sig] m_hist] & ->).
    cbn [bind]. eexists. reflexivity.
Qed.

Lemma compute_all_indicators_needs_close_column_witness :
  compute_all_indicators
    (mkDataFrame (Some "Date") [Num 0] [("CLOSE", [Num 100])])
  = Raise (KeyError "close") /\
  exists out, compute_all_indicators fourteen_days = Ok out.
Proof.
  split.
  - apply (compute_all_indicators_needs_close_column
             (mkDataFrame (Some "Date") [Num 0] [("CLOSE", [Num 100])]));
      reflexivity.
  - apply (compute_all_indicators_needs_close_column fourteen_days).
    right. reflexivity.
Defined.

(** *** A flat price *)

Lemma dropna_repeat q n : dropna (repeat (Num q) n) = repeat q n.
Proof.
  induction n as [|n IH]; cbn; [reflexivity|]. now rewrite IH.
Qed.

Lemma zip_sub_repeat a b n :
  zip_with PyNum.sub (repeat (Num a) n) (repeat (Num b) n)
  = repeat (Num (a - b)) n.
Proof.
  induction n as [|n IH]; cbn; [reflexivity|]. now rewrite IH.
Qed.

(** X15: for a price that stays at one value the MACD line, the signal
    line and the histogram are zero at every point, so the latest
    histogram value is not positive. *)
Theorem macd_of_flat_price_is_zero :
  forall (df : DataFrame) (c : Q) (n : nat),
    close_of df = Ok (repeat (Num c) n) ->
    exists out,
      compute_all_indicators df = Ok out /\
      line (macd_entry out) = repeat (c - c)%Q n /\
      signal (macd_entry out) = repeat (c - c)%Q n /\
      hist (macd_entry out) = repeat (c - c - (c - c))%Q n /\
      Forall (fun v => v == 0)%Q (hist (macd_entry out)).
Proof.
  intros df c n Hclose. unfold compute_all_indicators.
  rewrite Hclose. cbn [bind]. unfold macd, ema.
  rewrite !ewm_mean_constant by lia. cbn [bind].
  rewrite zip_sub_repeat, ewm_mean_constant by lia. cbn [bind].
  rewrite zip_sub_repeat. eexists. split; [reflexivity|].
  cbn [macd_entry line signal hist]. rewrite !dropna_repeat.
  repeat split. apply Forall_forall. intros v Hv.
  apply repeat_spec in Hv. subst v. ring.
Qed.

Lemma macd_of_flat_price_is_zero_witness :
  exists out,
    compute_all_indicators
      (mkDataFrame None [Num 0; Num 1; Num 2] [("Close", repeat (Num 42) 3)])
    = Ok out /\
    Forall (fun v => v == 0)%Q (hist (macd_entry out)).
Proof.
  destruct (macd_of_flat_price_is_zero
              (mkDataFrame None [Num 0; Num 1; Num 2]
                           [("Close", repeat (Num 42) 3)]) 42 3)
    as (out & Hout & _ & _ & _ & Hz); [reflexivity|].
  now exists out.
Defined.

End IndicatorMore.

(** ** The resolver: normal form of symbols, order of attempts, failures *)

Module ResolverMore.

Import Pandas Market ResolverFacts.

(** *** Normalised symbols *)

Lemma isspace_upper_char c : Py.isspace (Py.upper_char c) = Py.isspace c.
Proof. destruct c as [[] [] [] [] [] [] [] []]; reflexivity. Qed.

Lemma upper_char_idem c : Py.upper_char (Py.upper_char c) = Py.upper_char c.
Proof. destruct c as [[] [] [] [] [] [] [] []]; reflexivity. Qed.

Lemma upper_idem s : Py.upper (Py.upper s) = Py.upper s.
Proof.
  induction s as [|c s IH]; cbn; [reflexivity|].
  now rewrite upper_char_idem, IH.
Qed.

Lemma lstrip_upper s : Py.lstrip (Py.upper s) = Py.upper (Py.lstrip s).
Proof.
  induction s as [|c s IH]; cbn; [reflexivity|].
  rewrite isspace_upper_char. destruct (Py.isspace c); [exact IH|reflexivity].
Qed.

Lemma rstrip_upper s : Py.rstrip (Py.upper s) = Py.upper (Py.rstrip s).
Proof.
  induction s as [|c s IH]; cbn [Py.upper Py.rstrip]; [reflexivity|].
  rewrite IH, isspace_upper_char.
  destruct (Py.rstrip s) as [|d r]; cbn [Py.upper].
  - destruct (Py.isspace c); reflexivity.
  - reflexivity.
Qed.

Definition starts_clean (s : string) : Prop :=
  match s with
  | EmptyString => True
  | String c _ => Py.isspace c = false
  end.

Lemma lstrip_starts_clean s : starts_clean (Py.lstrip s).
Proof.
  induction s as [|c s IH]; cbn; [exact I|].
  destruct (Py.isspace c) eqn:E; [exact IH|exact E].
Qed.

Lemma rstrip_starts_clean s : starts_clean s -> starts_clean (Py.rstrip s).
Proof.
  destruct s as [|c s]; cbn [Py.rstrip starts_clean]; [trivial|].
  intros Hc. destruct (Py.rstrip s); [rewrite Hc|]; exact Hc.
Qed.

Lemma lstrip_clean s : starts_clean s -> Py.lstrip s = s.
Proof.
  destruct s as [|c s]; cbn; [reflexivity|]. now intros ->.
Qed.

Lemma rstrip_idem s : Py.rstrip (Py.rstrip s) = Py.rstrip s.
Proof.
  induction s as [|c s IH]; cbn [Py.rstrip]; [reflexivity|].
  destruct (Py.rstrip s) as [|d r] eqn:E.
  - destruct (Py.isspace c) eqn:Hc; cbn [Py.rstrip]; [reflexivity|].
    now rewrite Hc.
  - cbn [Py.rstrip] in *. now rewrite IH.
Qed.

Lemma strip_idem s : Py.strip (Py.strip s) = Py.strip s.
Proof.
  unfold Py.strip.
  rewrite (lstrip_clean (Py.rstrip (Py.lstrip s)))
    by apply rstrip_starts_clean, lstrip_starts_clean.
  apply rstrip_idem.
Qed.

Lemma strip_upper s : Py.strip (Py.upper s) = Py.upper (Py.strip s).
Proof. unfold Py.strip. now rewrite lstrip_upper, rstrip_upper. Qed.

(** X16: [_normalize_symbol] is idempotent: a normalised symbol is its own
    normal form, so a symbol and its normal form share one cache key. *)
Theorem normalize_symbol_idempotent :
  forall (symbol : option string) (period interval : string),
    _normalize_symbol (Some (_normalize_symbol symbol)) = _normalize_symbol symbol /\
    hist_key (_normalize_symbol (Some (_normalize_symbol symbol))) period interval
    = hist_key (_normalize_symbol symbol) period interval.
Proof.
  intros symbol period interval.
  assert (H : _normalize_symbol (Some (_normalize_symbol symbol))
              = _normalize_symbol symbol).
  { unfold _normalize_symbol. now rewrite strip_upper, upper_idem, strip_idem. }
  now rewrite H.
Qed.

(** *** The order of attempts *)

Section Attempts.

Variable yf : Provider.
Variable c : TTLCache.
Variable key : string.
Variable now_set : Q.

(** The two nested loops as one loop over the candidate-combination
    pairs. *)
Fixpoint attempts_loop (attempts : list (string * (string * string)))
    (tried : list string) (log : list (string * string * string))
  : loop_end * list string * list (string * string * string) :=
  match attempts with
  | [] => (Exhausted, tried, log)
  | (cand, (p, iv)) :: attempts' =>
      let tried := (tried ++ [attempt_label cand p iv])%list in
      let log := (log ++ [(cand, p, iv)])%list in
      match _fetch_hist_once yf cand p iv with
      | Raise e => (Raised e, tried, log)
      | Ok df =>
          if negb (empty df)
          then match Cache.set c key (Frame df) now_set with
               | Ok c' => (Returned df c', tried, log)
               | Raise e => (Raised e, tried, log)
               end
          else attempts_loop attempts' tried log
      end
  end.

Lemma combos_loop_attempts cand combos rest tried log :
  attempts_loop (map (pair cand) combos ++ rest)%list tried log
  = match combos_loop yf c key now_set cand combos tried log with
    | (Exhausted, tried', log') => attempts_loop rest tried' log'
    | stop => stop
    end.
Proof.
  revert tried log.
  induction combos as [|[p iv] combos IH]; intros tried log;
    cbn [map app attempts_loop combos_loop]; [reflexivity|].
  destruct (_fetch_hist_once yf cand p iv) as [df|e]; [|reflexivity].
  destruct (negb (empty df)); [|apply IH].
  destruct (Cache.set c key (Frame df) now_set); reflexivity.
Qed.

Lemma candidates_loop_attempts candidates combos tried log :
  candidates_loop yf c key now_set candidates combos tried log
  = attempts_loop (list_prod candidates combos) tried log.
Proof.
  revert tried log.
  induction candidates as [|cand candidates IH]; intros tried log;
    cbn [candidates_loop list_prod]; [reflexivity|].
  rewrite combos_loop_attempts.
  destruct (combos_loop yf c key now_set cand combos tried log)
    as [[[df c'|e|] tried'] log']; try reflexivity.
  apply IH.
Qed.

Lemma attempts_loop_first_success pre cand p iv post df c' tried log :
  (forall a, In a pre -> yields_nothing yf (fst a) (fst (snd a)) (snd (snd a))) ->
  _fetch_hist_once yf cand p iv = Ok df ->
  empty df = false ->
  Cache.set c key (Frame df) now_set = Ok c' ->
  attempts_loop (pre ++ (cand, (p, iv)) :: post)%list tried log
  = (Returned df c',
     (tried ++ map label_of (pre ++ [(cand, (p, iv))]))%list,
     (log ++ map call_of (pre ++ [(cand, (p, iv))]))%list).
Proof.
  intros Hpre Hfetch Hne Hset. revert tried log.
  induction pre as [|[cand0 [p0 iv0]] pre IH]; intros tried log;
    cbn [app attempts_loop map].
  - now rewrite Hfetch, Hne, Hset.
  - rewrite (fetch_hist_once_nothing yf cand0 p0 iv0)
      by exact (Hpre (cand0, (p0, iv0)) (or_introl eq_refl)).
    cbn [empty DataFrame_empty index columns negb].
    rewrite IH by (intros a Ha; apply Hpre; now right).
    now rewrite <- !app_assoc.
Qed.

End Attempts.

Lemma set_with_capacity (c : TTLCache) key (v : Any) (now : Q) :
  1 <= Cache.maxsize c -> exists c', Cache.set c key v now = Ok c'.
Proof.
  intros Hcap. unfold Cache.set.
  destruct (Cache.maxsize c <=? Cache.len (Cache._store c)) eqn:Hfull.
  - apply Z.leb_le in Hfull.
    destruct (Cache._store c) as [|kv d]; [cbn in Hfull; lia|].
    cbn [Cache.min_by_time bind]. eexists. reflexivity.
  - cbn [bind]. eexists. reflexivity.
Qed.

Lemma get_keeps_maxsize (c c' : TTLCache) key now r :
  Cache.get c key now = (r, c') -> Cache.maxsize c' = Cache.maxsize c.
Proof.
  unfold Cache.get. destruct (Cache.dict_get key (Cache._store c)) as [[ts v]|].
  - destruct (Qlt_bool _ _); intros H; injection H as _ <-; reflexivity.
  - intros H; injection H as _ <-; reflexivity.
Qed.

(** X17: on a cache miss [fetch_history] returns the frame of the first
    candidate-combination pair, in the order candidates outer and
    combinations inner, for which the provider has data, after calling
    the provider exactly for the pairs up to and including that one;
    later pairs are never tried. *)
Theorem fetch_history_returns_first_pair_with_data :
  forall (yf : Provider) (c : TTLCache) (symbol : option string)
         (period interval : string) (now_get now_set : Q)
         (pre post : list (string * (string * string)))
         (cand p iv : string) (df : DataFrame),
    let sym := _normalize_symbol symbol in
    let run := fetch_history yf c symbol period interval now_get now_set in
    fst (Cache.get c (hist_key sym period interval) now_get) = None ->
    1 <= Cache.maxsize c ->
    list_prod (candidates_of sym) (combos_of period interval)
    = (pre ++ (cand, (p, iv)) :: post)%list ->
    (forall a, In a pre -> yields_nothing yf (fst a) (fst (snd a)) (snd (snd a))) ->
    _fetch_hist_once yf cand p iv = Ok df ->
    empty df = false ->
    outcome run = Ok (Frame df) /\
    calls run = map call_of (pre ++ [(cand, (p, iv))]).
Proof.
  intros yf c symbol period interval now_get now_set pre post cand p iv df
         sym run Hmiss Hcap Hsplit Hpre Hfetch Hne.
  subst run. unfold fetch_history. fold sym.
  destruct (Cache.get c (hist_key sym period interval) now_get) as [r c1] eqn:Hget.
  cbn [fst] in Hmiss. subst r.
  destruct (set_with_capacity c1 (hist_key sym period interval) (Frame df) now_set)
    as (c' & Hset).
  { now rewrite (get_keeps_maxsize _ _ _ _ _ Hget). }
  rewrite candidates_loop_attempts, Hsplit.
  rewrite (attempts_loop_first_success yf c1 _ now_set pre cand p iv post df c')
    by assumption.
  cbn [outcome calls app]. split; reflexivity.
Qed.

Lemma fetch_history_returns_first_pair_with_data_witness :
  exists df,
    outcome (fetch_history nse_only cache (Some "tcs") "1y" "1d" 0 1)
    = Ok (Frame df) /\
    List.length (calls (fetch_history nse_only cache (Some "tcs") "1y" "1d" 0 1))
    = 7%nat.
Proof.
  destruct (_fetch_hist_once nse_only "TCS.NS" "1y" "1d") as [df|e] eqn:Hfetch;
    [|vm_compute in Hfetch; discriminate].
  destruct (fetch_history_returns_first_pair_with_data
              nse_only cache (Some "tcs") "1y" "1d" 0 1
              (list_prod ["TCS"] (combos_of "1y" "1d"))
              (list_prod ["TCS.NS"] (tl (combos_of "1y" "1d"))
               ++ list_prod ["TCS.BO"] (combos_of "1y" "1d"))%list
              "TCS.NS" "1y" "1d" df) as [Hout Hcalls].
  - reflexivity.
  - vm_compute. discriminate.
  - reflexivity.
  - intros a Ha. vm_compute in Ha.
    repeat (destruct Ha as [<-|Ha];
            [eexists; split; [reflexivity|left; reflexivity]|]).
    contradiction.
  - exact Hfetch.
  - vm_compute in Hfetch. injection Hfetch as <-. reflexivity.
  - exists df. split; [exact Hout|]. rewrite Hcalls. reflexivity.
Defined.

(** *** Failures and the cache *)

(** X18: a [fetch_history] that raises has written nothing to the cache:
    the cache is what the look-up left, and the entry of every key other
    than the one asked for is as before. *)
Theorem failed_fetch_history_writes_nothing :
  forall (yf : Provider) (c : TTLCache) (symbol : option string)
         (period interval : string) (now_get now_set : Q) (e : exn),
    let key := hist_key (_normalize_symbol symbol) period interval in
    let run := fetch_history yf c symbol period interval now_get now_set in
    outcome run = Raise e ->
    cache_after run = snd (Cache.get c key now_get) /\
    forall k, k <> key ->
      Cache.dict_get k (Cache._store (cache_after run))
      = Cache.dict_get k (Cache._store c).
Proof.
  intros yf c symbol period interval now_get now_set e key run Hout.
  assert (Hafter : cache_after run = snd (Cache.get c key now_get)).
  { subst run. unfold fetch_history in *. fold key in Hout |- *.
    destruct (Cache.get c key now_get) as [[cached|] c1]; [discriminate|].
    destruct (candidates_loop yf c1 key now_set _ _ [] [])
      as [[[df c2|e'|] tr] lg]; [discriminate| |]; reflexivity. }
  split; [exact Hafter|]. intros k Hk. rewrite Hafter.
  unfold Cache.get.
  destruct (Cache.dict_get key (Cache._store c)) as [[ts v]|]; [|reflexivity].
  destruct (Qlt_bool _ _); cbn [snd]; [|reflexivity].
  cbn [Cache.with_store Cache._store]. now apply CacheFacts.dict_get_pop_other.
Qed.

(** A cache that holds one other entry. *)
Definition one_entry : TTLCache :=
  Cache.mkTTLCache 300 128 [("hist:INFY:1y:1d", (5%Q, Frame two_days))].

Lemma failed_fetch_history_writes_nothing_witness :
  cache_after (fetch_history knows_nothing one_entry (Some "tcs") "1y" "1d" 10 11)
  = one_entry.
Proof.
  eapply (failed_fetch_history_writes_nothing
            knows_nothing one_entry (Some "tcs") "1y" "1d" 10 11).
  reflexivity.
Defined.

(** *** The frame a single attempt returns *)

(* the second renaming of [_fetch_hist_once] *)
Definition date_lower (name : string) : string :=
  if String.eqb name "Date" then "date" else name.

Lemma date_lower_close name :
  String.eqb (date_lower name) "Close" = String.eqb name "Close".
Proof.
  unfold date_lower. destruct (String.eqb name "Date") eqn:E; [|reflexivity].
  apply String.eqb_eq in E. subst name. reflexivity.
Qed.

Lemma find_date_lower (cols : list (string * Series)) :
  find (fun c => String.eqb (fst c) "Close")
       (map (fun c => (date_lower (fst c), snd c)) cols)
  = option_map (fun c => (date_lower (fst c), snd c))
      (find (fun c => String.eqb (fst c) "Close") cols).
Proof.
  induction cols as [|[name col] cols IH]; cbn [map find fst snd]; [reflexivity|].
  rewrite date_lower_close. destruct (String.eqb name "Close"); [reflexivity|].
  exact IH.
Qed.

(** X19: when the provider returns a frame with rows and columns whose
    index has a name no title-cased column carries, [_fetch_hist_once]
    returns a frame with as many rows, that is not empty, whose first
    column is the old index, under "date" if it was named "Date", and
    whose other columns are the title-cased ones.  A close column written
    in any case is then found by [compute_all_indicators]. *)
Theorem fetch_hist_once_frame_shape :
  forall (yf : Provider) (symbol p iv : string) (t : Ticker)
         (df0 : DataFrame) (name : string),
    yf symbol = Ok t ->
    history t p iv = Ok (Some df0) ->
    empty df0 = false ->
    index_name df0 = Some name ->
    has_column name (rename_columns title df0) = false ->
    exists df,
      _fetch_hist_once yf symbol p iv = Ok df /\
      empty df = false /\
      len df = len df0 /\
      map fst (columns df)
      = map date_lower (name :: map (fun c => title (fst c)) (columns df0)) /\
      (forall close,
          column "Close" (rename_columns title df0) = Ok close ->
          Indicators.close_of df = Ok close).
Proof.
  intros yf symbol p iv t df0 name Hyf Hhist Hne Hname Hclash.
  unfold _fetch_hist_once. rewrite Hyf. cbn [bind]. rewrite Hhist. cbn [bind].
  rewrite Hne. unfold reset_index.
  change (index_name (rename_columns title df0)) with (index_name df0).
  rewrite Hname, Hclash. cbn [bind].
  eexists. split; [reflexivity|].
  unfold empty in Hne.
  destruct (index df0) as [|i0 idx] eqn:Hidx; [discriminate|].
  fold date_lower. unfold len.
  cbn [rename_columns index columns index_name]. rewrite Hidx.
  split; [reflexivity|]. split.
  { now rewrite length_map, length_seq. }
  split.
  { cbn [map fst snd]. f_equal. rewrite !map_map. reflexivity. }
  intros close Hclose.
  assert (Hfind : find (fun c => String.eqb (fst c) "Close")
                       (columns (rename_columns title df0))
                  <> None).
  { unfold column in Hclose. destruct (find _ _); [discriminate|discriminate]. }
  assert (Hnm : String.eqb name "Close" = false).
  { destruct (String.eqb name "Close") eqn:E; [|reflexivity].
    apply String.eqb_eq in E. subst name. exfalso. apply Hfind.
    unfold has_column in Hclash.
    destruct (find _ (columns (rename_columns title df0))) as [c0|] eqn:Ef;
      [|reflexivity].
    apply find_some in Ef as [Hin Hc0].
    assert (Ht : existsb (fun c => String.eqb (fst c) "Close")
                         (columns (rename_columns title df0)) = true)
      by (apply existsb_exists; now exists c0).
    congruence. }
  unfold Indicators.close_of, has_column, column in *.
  cbn [rename_columns columns map fst snd existsb find] in *.
  rewrite date_lower_close, Hnm. cbn [orb].
  rewrite find_date_lower.
  destruct (find (fun c => String.eqb (fst c) "Close")
                 (map (fun c => (title (fst c), snd c)) (columns df0)))
    as [c0|] eqn:Ef; [|discriminate].
  assert (Hex : existsb (fun c => String.eqb (fst c) "Close")
                  (map (fun c => (date_lower (fst c), snd c))
                       (map (fun c => (title (fst c), snd c)) (columns df0)))
                = true).
  { apply find_some in Ef as [Hin Hc0]. apply existsb_exists.
    exists (date_lower (fst c0), snd c0). split.
    - apply in_map_iff. now exists c0.
    - cbn [fst]. now rewrite date_lower_close. }
  rewrite Hex. cbn [option_map snd]. exact Hclose.
Qed.

(** A provider frame whose columns are written in lower case. *)
Definition lower_case_frame : DataFrame :=
  mkDataFrame (Some "Date") [Num 19000; Num 19001]
    [("open", [Num 99; Num 100]); ("close", [Num 100; Num 101])].

Lemma fetch_hist_once_frame_shape_witness :
  exists df,
    _fetch_hist_once
      (fun _ => Ok (ticker_with (fun _ _ => Ok (Some lower_case_frame))))
      "TCS" "1y" "1d" = Ok df /\
    map fst (columns df) = ["date"; "Open"; "Close"] /\
    Indicators.close_of df = Ok [Num 100; Num 101].
Proof.
  destruct (fetch_hist_once_frame_shape
              (fun _ => Ok (ticker_with (fun _ _ => Ok (Some lower_case_frame))))
              "TCS" "1y" "1d" _ lower_case_frame "Date"
              eq_refl eq_refl eq_refl eq_refl eq_refl)
    as (df & Hdf & _ & _ & Hcols & Hclose).
  exists df. split; [exact Hdf|]. split; [exact Hcols|].
  apply Hclose. reflexivity.
Defined.

(** *** The cache under the resolver *)

(** X20: [fetch_history] uses the cache only through [get] and [set]: run on
    a cache obtained from [init t m] by gets and sets, with [m >= 1], it
    leaves such a cache, which therefore holds no key twice and at most
    [m] entries. *)
Theorem fetch_history_keeps_cache_within_capacity :
  forall (t m : Z) (yf : Provider) (c : TTLCache) (symbol : option string)
         (period interval : string) (now_get now_set : Q),
    1 <= m ->
    CacheMore.reachable t m c ->
    let after := cache_after (fetch_history yf c symbol period interval
                                            now_get now_set) in
    CacheMore.reachable t m after /\
    NoDup (CacheMore.keys (Cache._store after)) /\
    Cache.len (Cache._store after) <= m.
Proof.
  intros t m yf c symbol period interval now_get now_set Hm Hreach after.
  assert (Hafter : CacheMore.reachable t m after).
  { subst after. unfold fetch_history.
    pose proof (CacheMore.reach_get t m c
                  (hist_key (_normalize_symbol symbol) period interval)
                  now_get Hreach) as Hget.
    destruct (Cache.get c (hist_key (_normalize_symbol symbol) period interval)
                        now_get) as [[cached|] c1]; cbn [snd] in Hget;
      [exact Hget|].
    destruct (candidates_loop yf c1 _ now_set _ _ [] [])
      as [[[df c2|e|] tr] lg] eqn:Hloop; cbn [cache_after]; try exact Hget.
    apply candidates_loop_returned in Hloop as [Hset _].
    eapply CacheMore.reach_set; eassumption. }
  split; [exact Hafter|].
  destruct (CacheMore.reachable_invariant t m after Hm Hafter)
    as (_ & _ & Hnd & Hlen).
  split; assumption.
Qed.

Lemma fetch_history_keeps_cache_within_capacity_witness :
  let after := cache_after (fetch_history nse_only cache (Some "tcs") "1y" "1d" 0 1) in
  NoDup (CacheMore.keys (Cache._store after)) /\
  Cache.len (Cache._store after) <= 128.
Proof.
  cbv zeta.
  destruct (fetch_history_keeps_cache_within_capacity
              300 128 nse_only cache (Some "tcs") "1y" "1d" 0 1) as (_ & Hnd & Hlen).
  - lia.
  - apply CacheMore.reach_init.
  - split; assumption.
Defined.

End ResolverMore.


(** ** The batch fetcher: chunks, pauses, candidates, the history fall-back *)

Module QuoteMore.

Import Pandas Market QuoteFacts.

(** *** Chunks *)

Fixpoint all_but_last {A : Type} (P : A -> Prop) (l : list A) : Prop :=
  match l with
  | [] => True
  | x :: rest => match rest with [] => True | _ => P x end /\ all_but_last P rest
  end.

Lemma chunks_from_shape buf seq size :
  1 <= size -> Z.of_nat (List.length buf) < size ->
  Forall (fun ch => 1 <= Z.of_nat (List.length ch) <= size)
         (_chunks_from buf seq size) /\
  all_but_last (fun ch => Z.of_nat (List.length ch) = size)
               (_chunks_from buf seq size).
Proof.
  intros Hsize. revert buf.
  induction seq as [|s seq IH]; intros buf Hbuf; cbn [_chunks_from].
  - destruct buf as [|b buf]; [split; [constructor|exact I]|].
    split; [|cbn; tauto]. constructor; [|constructor].
    cbn [List.length] in *. lia.
  - assert (Hlen : Z.of_nat (List.length (buf ++ [s])) = Z.of_nat (List.length buf) + 1).
    { rewrite length_app. cbn. lia. }
    destruct (Z.leb_spec size (Z.of_nat (List.length (buf ++ [s])))) as [Hfull|Hroom].
    + destruct (IH [] ltac:(cbn; lia)) as [Hall Hlast].
      split; [constructor; [lia|exact Hall]|].
      cbn [all_but_last]. split; [|exact Hlast].
      destruct (_chunks_from [] seq size); [exact I|].
      apply Z.le_antisymm; [lia|exact Hfull].
    + apply IH. lia.
Qed.

Lemma chunks_from_singletons seq size :
  size <= 1 -> _chunks_from [] seq size = map (fun s => [s]) seq.
Proof.
  intros Hsize. induction seq as [|s seq IH]; cbn [_chunks_from map app];
    [reflexivity|].
  destruct (Z.leb_spec size (Z.of_nat (List.length [s]))) as [_|H];
    [|cbn in H; lia].
  now rewrite IH.
Qed.

(** X21: [_chunks] cuts the sequence into consecutive pieces: joined in
    order they give the sequence back.  For a size of at least 1 every
    piece has between 1 and [size] items and every piece but the last has
    exactly [size]; for a size of 1 or less every item is a piece of its
    own. *)
Theorem chunks_partition :
  forall (seq : list string) (size : Z),
    List.concat (_chunks seq size) = seq /\
    (1 <= size ->
     Forall (fun ch => 1 <= Z.of_nat (List.length ch) <= size) (_chunks seq size) /\
     all_but_last (fun ch => Z.of_nat (List.length ch) = size) (_chunks seq size)) /\
    (size <= 1 -> _chunks seq size = map (fun s => [s]) seq).
Proof.
  intros seq size. unfold _chunks. split; [apply chunks_from_concat|]. split.
  - intros Hsize. apply chunks_from_shape; [exact Hsize|cbn; lia].
  - apply chunks_from_singletons.
Qed.

Lemma chunks_partition_witness :
  _chunks ["a"; "b"; "c"; "d"; "e"] 2 = [["a"; "b"]; ["c"; "d"]; ["e"]] /\
  _chunks ["a"; "b"] 0 = [["a"]; ["b"]] /\
  Forall (fun ch => 1 <= Z.of_nat (List.length ch) <= 2)
         (_chunks ["a"; "b"; "c"; "d"; "e"] 2).
Proof.
  split; [reflexivity|]. split.
  - apply (chunks_partition ["a"; "b"] 0). lia.
  - apply (chunks_partition ["a"; "b"; "c"; "d"; "e"] 2). lia.
Defined.

(** *** Pauses *)

Definition pause (sleep_ms : Z) : Q := (inject_Z (Z.max 0 sleep_ms) / 1000)%Q.

Lemma chunks_loop_pauses yf now sleep_ms chunks out slept :
  snd (chunks_loop yf now sleep_ms chunks out slept)
  = (slept ++ repeat (pause sleep_ms) (List.length chunks))%list.
Proof.
  revert out slept.
  induction chunks as [|batch chunks IH]; intros out slept;
    cbn [chunks_loop snd List.length repeat].
  - now rewrite app_nil_r.
  - rewrite IH. rewrite <- app_assoc. reflexivity.
Qed.

(** X22: [fetch_quotes] pauses once after every chunk, the last one
    included, each time for [max(0, sleep_ms) / 1000] seconds, which is
    never negative; with no symbol to look up there is no pause. *)
Theorem fetch_quotes_pauses_after_every_chunk :
  forall (yf : Provider) (symbols : list (option string))
         (chunk_size sleep_ms now : Z),
    let syms := map _normalize_symbol (filter truthy_symbol symbols) in
    snd (fetch_quotes yf symbols chunk_size sleep_ms now)
    = repeat (pause sleep_ms) (List.length (_chunks syms chunk_size)) /\
    (0 <= pause sleep_ms)%Q /\
    (syms = [] -> snd (fetch_quotes yf symbols chunk_size sleep_ms now) = []).
Proof.
  intros yf symbols chunk_size sleep_ms now syms. subst syms.
  unfold fetch_quotes. rewrite chunks_loop_pauses. cbn [app].
  split; [reflexivity|]. split.
  - unfold pause, Qdiv. apply Qmult_le_0_compat; [|discriminate].
    rewrite <- (Zle_Qle 0). lia.
  - intros ->. reflexivity.
Qed.

Lemma fetch_quotes_pauses_after_every_chunk_witness :
  snd (fetch_quotes tcs_only [Some "a"; Some "b"; Some "c"] 2 (-5) 0) = [0%Q / 1000; 0%Q / 1000]%Q /\
  snd (fetch_quotes tcs_only [None; Some ""] 2 200 0) = [].
Proof.
  split.
  - reflexivity.
  - apply (fetch_quotes_pauses_after_every_chunk tcs_only [None; Some ""] 2 200 0).
    reflexivity.
Defined.

(** *** Candidates *)

Lemma quote_candidates_first_answer yf pre c post item r :
  (forall c', In c' pre -> exists e, read_quote yf c' = Raise e) ->
  read_quote yf c = Ok r ->
  quote_candidates yf (pre ++ c :: post)%list item = write_quote item r.
Proof.
  intros Hpre Hread. induction pre as [|c0 pre IH]; cbn [app quote_candidates].
  - now rewrite Hread.
  - destruct (Hpre c0 (or_introl eq_refl)) as (e & ->).
    apply IH. intros c' Hc'. apply Hpre. now right.
Qed.

(** X23: the quote of a symbol is written from the first candidate whose
    look-up does not raise, whatever that look-up found; the candidates
    after it are not consulted, so a bare symbol that answers with
    nothing is never retried with an exchange suffix. *)
Theorem quote_written_from_first_answering_candidate :
  forall (yf yf' : Provider) (now : Z) (sym c : string)
         (pre post : list string) (r : Reading),
    candidates_of sym = (pre ++ c :: post)%list ->
    (forall c', In c' pre -> exists e, read_quote yf c' = Raise e) ->
    read_quote yf c = Ok r ->
    (forall c', In c' (pre ++ [c])%list -> read_quote yf' c' = read_quote yf c') ->
    quote_for yf now sym = write_quote (new_item sym now) r /\
    quote_for yf' now sym = quote_for yf now sym.
Proof.
  intros yf yf' now sym c pre post r Hsplit Hpre Hread Hsame.
  unfold quote_for. rewrite Hsplit.
  rewrite (quote_candidates_first_answer yf pre c post _ r Hpre Hread).
  split; [reflexivity|].
  apply quote_candidates_first_answer.
  - intros c' Hc'. destruct (Hpre c' Hc') as (e & He). exists e.
    rewrite Hsame; [exact He|]. apply in_or_app. now left.
  - rewrite Hsame; [exact Hread|]. apply in_or_app. right. now left.
Qed.

(** A provider that answers for the bare symbol with nothing and has a
    price under the ".NS" suffix. *)
Definition bare_is_blank : Provider :=
  fun c =>
    Ok (mkTicker
          (fun _ _ => Ok None)
          (Ok (Some (mkFastInfo
                       (fun k => if String.eqb c "TCS.NS" && String.eqb k "last_price"
                                 then Some (Num 105) else None)
                       (fun _ => None))))).

Lemma quote_written_from_first_answering_candidate_witness :
  quote_for bare_is_blank 0 "TCS" = new_item "TCS" 0 /\
  quote_for ResolverFacts.knows_nothing 0 "TCS" = quote_for bare_is_blank 0 "TCS".
Proof.
  destruct (quote_written_from_first_answering_candidate
              bare_is_blank ResolverFacts.knows_nothing 0 "TCS" "TCS" []
              ["TCS.NS"; "TCS.BO"] (mkReading None None None None))
    as [H1 H2].
  - reflexivity.
  - intros c' [].
  - reflexivity.
  - intros c' [<-|[]]. reflexivity.
  - split; [rewrite H1; reflexivity|exact H2].
Defined.

(** *** The history fall-back *)

(* the fast quote's price and previous close, as [read_quote] picks them *)
Definition fast_price (fi : FastInfo) : option pynum :=
  py_or (py_or (py_or (fi_num fi "last_price") (fi_num fi "lastPrice"))
               (fi_num fi "last_trade"))
        (fi_num fi "regularMarketPrice").

Definition or_empty (fi : option FastInfo) : FastInfo :=
  match fi with Some fi => fi | None => no_fast_info end.

Lemma iloc_back_last rest b : iloc_back 1 (rest ++ [b])%list = Ok b.
Proof. unfold iloc_back. rewrite rev_unit. reflexivity. Qed.

Lemma iloc_back_second rest a b :
  iloc_back 2 (rest ++ [a; b])%list = Ok a.
Proof.
  unfold iloc_back.
  change (rest ++ [a; b])%list with (rest ++ [a] ++ [b])%list.
  rewrite app_assoc, !rev_unit. reflexivity.
Qed.

Lemma price_write_new sym now r :
  price (write_quote (new_item sym now) r) = r_price r /\
  previous_close (write_quote (new_item sym now) r) = r_prev r.
Proof.
  unfold write_quote, new_item.
  destruct r as [[p|] [pc|] curr mcap]; cbn;
    try destruct (PyNum.truthy pc); cbn;
    destruct curr as [cu|]; try destruct (Py.truthy_str cu); cbn;
    destruct (truthy_opt mcap); cbn; try destruct mcap as [m|]; cbn;
    try destruct (PyNum.to_int m); cbn; auto.
Qed.

(** X24: when the fast quote of the symbol has no usable price, the price
    is the last close of the five-day history and the previous close is
    the close before it, whatever previous close the fast quote had.
    With a single row in the history there is no previous close, and so
    no change and no percentage change. *)
Theorem quote_from_history_fallback :
  forall (yf : Provider) (now : Z) (sym : string) (t : Ticker)
         (fi : option FastInfo) (h : DataFrame)
         (rest : Series) (b : pynum),
    yf sym = Ok t ->
    fast_info t = Ok fi ->
    truthy_opt (fast_price (or_empty fi)) = false ->
    history t "5d" "1d" = Ok (Some h) ->
    column "Close" h = Ok (rest ++ [b])%list ->
    len h = List.length (rest ++ [b])%list ->
    let q := quote_for yf now sym in
    price q = Some b /\
    previous_close q = last_opt rest /\
    (rest = [] -> change q = None /\ change_pct q = None).
Proof.
  intros yf now sym t fi h rest b Hyf Hfi Hfast Hhist Hclose Hlen q.
  assert (Hread : read_quote yf sym
                  = Ok (mkReading (Some b) (last_opt rest)
                          (fi_str (or_empty fi) "currency")
                          (py_or (fi_num (or_empty fi) "market_cap")
                                 (fi_num (or_empty fi) "marketCap")))).
  { unfold read_quote. rewrite Hyf. cbn [bind]. rewrite Hfi. cbn [bind].
    fold (or_empty fi). fold (fast_price (or_empty fi)).
    rewrite Hfast. cbn [negb]. rewrite Hhist. cbn [bind].
    assert (Hne : empty h = false).
    { unfold empty. unfold len in Hlen. rewrite length_app in Hlen.
      destruct (index h); [cbn in Hlen; lia|].
      unfold column in Hclose. destruct (columns h); [discriminate|reflexivity]. }
    rewrite Hne. cbn [negb]. rewrite Hclose. cbn [bind].
    rewrite iloc_back_last. cbn [bind]. rewrite Hlen.
    destruct rest as [|a0 rest0] using rev_ind.
    - cbn [app List.length Nat.ltb Nat.leb bind]. reflexivity.
    - assert (Hlt : (1 <? List.length ((rest0 ++ [a0]) ++ [b]))%nat = true).
      { apply Nat.ltb_lt. rewrite !length_app. cbn. lia. }
      rewrite Hlt. cbn [bind].
      rewrite <- app_assoc. cbn [app]. rewrite iloc_back_second. cbn [bind].
      unfold last_opt. rewrite rev_unit. reflexivity. }
  assert (Hq : q = write_quote (new_item sym now) (mkReading (Some b) (last_opt rest)
                          (fi_str (or_empty fi) "currency")
                          (py_or (fi_num (or_empty fi) "market_cap")
                                 (fi_num (or_empty fi) "marketCap")))).
  { subst q. unfold quote_for, candidates_of.
    destruct (Py.contains "." sym); cbn [quote_candidates]; now rewrite Hread. }
  destruct (price_write_new sym now (mkReading (Some b) (last_opt rest)
                          (fi_str (or_empty fi) "currency")
                          (py_or (fi_num (or_empty fi) "market_cap")
                                 (fi_num (or_empty fi) "marketCap"))))
    as [Hp Hpc].
  rewrite Hq, Hp, Hpc. cbn [r_price r_prev].
  split; [reflexivity|]. split; [reflexivity|]. intros Hnil. subst rest.
  pose proof (change_fields_ok_write sym now
                (mkReading (Some b) (last_opt [])
                   (fi_str (or_empty fi) "currency")
                   (py_or (fi_num (or_empty fi) "market_cap")
                          (fi_num (or_empty fi) "marketCap")))) as Hok.
  unfold change_fields_ok in Hok. rewrite Hp, Hpc in Hok.
  cbn [r_price r_prev last_opt rev] in Hok. exact Hok.
Qed.

(** A provider whose fast quote has a previous close but no price, and
    whose history has a single day. *)
Definition one_day_history : Provider :=
  fun _ =>
    Ok (mkTicker
          (fun _ _ => Ok (Some (mkDataFrame (Some "Date") [Num 19000]
                                            [("Close", [Num 101])])))
          (Ok (Some (mkFastInfo
                       (fun k => if String.eqb k "previous_close"
                                 then Some (Num 100) else None)
                       (fun _ => None))))).

Lemma quote_from_history_fallback_witness :
  let q := quote_for one_day_history 0 "TCS" in
  price q = Some (Num 101) /\ previous_close q = None /\ change q = None.
Proof.
  cbv zeta.
  destruct (quote_from_history_fallback one_day_history 0 "TCS" _ _ _ [] (Num 101)
              eq_refl eq_refl eq_refl eq_refl eq_refl eq_refl)
    as (Hp & Hpc & Hch).
  split; [exact Hp|]. split; [exact Hpc|]. now apply Hch.
Defined.

End QuoteMore.

(** ** The summary scorer: range of the score, silent metrics *)

Module ScorerMore.

Import Market.

(** X25: whatever the inputs, the score lies between -1 and 5, there are at
    most five reasons and the score never exceeds their number; the
    signal is "Strong Buy" exactly for a score of 4 or 5 and "Sell"
    exactly for a score of 0 or -1. *)
Theorem summary_score_range :
  forall (ind : Indicators.IndicatorSet) (f : Fundamentals),
    let s := rule_based_summary ind f in
    -1 <= score s <= 5 /\
    (List.length (reasons s) <= 5)%nat /\
    score s <= Z.of_nat (List.length (reasons s)) /\
    (signal s = "Strong Buy" <-> 4 <= score s) /\
    (signal s = "Sell" <-> score s <= 0).
Proof.
  intros ind f. cbv zeta. unfold rule_based_summary.
  destruct (Indicators.latest (Indicators.rsi_entry ind)) as [r|];
    [destruct (Qle_bool 45 r && Qle_bool r 60);
     [|destruct (Qlt_bool r 35); [|destruct (Qlt_bool 70 r)]]|];
  (destruct (Indicators.hist_latest (Indicators.macd_entry ind)) as [h|];
    [destruct (Qlt_bool 0 h)|]);
  (destruct (truthy_opt (trailingPe f)
             && match trailingPe f with
                | Some pe => PyNum.lt (PyNum.of_Z 0) pe && PyNum.lt pe (PyNum.of_Z 35)
                | None => false
                end));
  (destruct (truthy_opt (returnOnEquity f)
             && match returnOnEquity f with
                | Some roe => PyNum.lt (Num float_0_12) roe
                | None => false
                end));
  (destruct (debtToEquity f) as [de|];
    [destruct (PyNum.lt de (PyNum.of_Z 100))|]);
  cbn; (repeat split; try lia; try discriminate; try reflexivity).
Qed.

(** A metric that is absent or not a number. *)
Definition silent (x : option pynum) : Prop := x = None \/ x = Some NaN.

(** An RSI that is absent or lies in one of the two bands the rules
    pass over: from 35 up to 45, and above 60 up to 70. *)
Definition rsi_unrated (x : option Q) : Prop :=
  match x with
  | None => True
  | Some r => (35 <= r /\ r < 45)%Q \/ (60 < r /\ r <= 70)%Q
  end.

(** X26: metrics that are absent or NaN score nothing and give no reason,
    and neither does an RSI between 35 and 45 or between 60 and 70, nor a
    MACD histogram that is absent or not positive: with only such inputs
    the score is 0, the signal "Sell" and the list of reasons empty. *)
Theorem summary_of_silent_inputs :
  forall (ind : Indicators.IndicatorSet) (f : Fundamentals),
    rsi_unrated (Indicators.latest (Indicators.rsi_entry ind)) ->
    match Indicators.hist_latest (Indicators.macd_entry ind) with
    | None => True
    | Some h => (h <= 0)%Q
    end ->
    silent (trailingPe f) ->
    silent (returnOnEquity f) ->
    silent (debtToEquity f) ->
    let s := rule_based_summary ind f in
    score s = 0 /\ signal s = "Sell" /\ reasons s = [].
Proof.
  intros ind f Hrsi Hmacd Hpe Hroe Hde. cbv zeta. unfold rule_based_summary.
  assert (H1 : match Indicators.latest (Indicators.rsi_entry ind) with
               | Some r => Qle_bool 45 r && Qle_bool r 60 = false
                           /\ Qlt_bool r 35 = false /\ Qlt_bool 70 r = false
               | None => True
               end).
  { destruct (Indicators.latest (Indicators.rsi_entry ind)) as [r|]; [|exact I].
    cbn in Hrsi. repeat split.
    - apply andb_false_iff.
      destruct Hrsi as [[_ H]|[H _]].
      + left. destruct (Qle_bool 45 r) eqn:E; [|reflexivity].
        apply Qle_bool_iff in E. lra.
      + right. destruct (Qle_bool r 60) eqn:E; [|reflexivity].
        apply Qle_bool_iff in E. lra.
    - apply Qlt_bool_false_iff. lra.
    - apply Qlt_bool_false_iff. lra. }
  destruct (Indicators.latest (Indicators.rsi_entry ind)) as [r|];
    [destruct H1 as (-> & -> & ->)|];
  (destruct (Indicators.hist_latest (Indicators.macd_entry ind)) as [h|];
    [apply Qlt_bool_false_iff in Hmacd; rewrite Hmacd|]);
  destruct Hpe as [-> | ->], Hroe as [-> | ->], Hde as [-> | ->];
  repeat split.
Qed.

Lemma summary_of_silent_inputs_witness :
  let s := rule_based_summary
             (Indicators.mkIndicatorSet
                (Indicators.mkRsiEntry [40%Q] (Some 40%Q))
                (Indicators.mkMacdEntry [] [] [] None)
                (Indicators.mkMovingAverages [] []))
             (mkFundamentals (Some NaN) None None (Some NaN) None None) in
  score s = 0 /\ signal s = "Sell" /\ reasons s = [].
Proof.
  apply summary_of_silent_inputs.
  - cbn. left. split; unfold Qle, Qlt; cbn; lia.
  - exact I.
  - now right.
  - now left.
  - now right.
Defined.

End ScorerMore.

(** ** Rounded outputs *)

Module RoundMore.

Import Pandas Market.

Lemma round_half_even_close (q : Q) :
  (- (1 # 2) <= inject_Z (PyNum.round_half_even q) - q <= 1 # 2)%Q.
Proof.
  unfold PyNum.round_half_even.
  pose proof (Qfloor_le q) as Hlo. pose proof (Qlt_floor q) as Hhi.
  rewrite inject_Z_plus in Hhi. change (inject_Z 1) with 1%Q in Hhi.
  destruct (Qcompare_spec (q - inject_Z (Qfloor q)) (1 # 2)) as [He|Hl|Hg].
  - destruct (Z.even (Qfloor q)).
    + lra.
    + rewrite inject_Z_plus. change (inject_Z 1) with 1%Q. lra.
  - lra.
  - rewrite inject_Z_plus. change (inject_Z 1) with 1%Q. lra.
Qed.

Lemma pow10_pos n : (0 < PyNum.pow10 n)%Q.
Proof.
  unfold PyNum.pow10. rewrite <- (Zlt_Qlt 0). apply Z.pow_pos_nonneg; lia.
Qed.

(** The rounded value is a whole number of units [10^-n] and misses the
    exact one by at most half a unit. *)
Lemma round_to_close (n : nat) (x : Q) :
  exists k : Z,
    PyNum.round_to n (Num x) = Num (inject_Z k / PyNum.pow10 n) /\
    (- (1 # 2) <= inject_Z k - x * PyNum.pow10 n <= 1 # 2)%Q.
Proof.
  exists (PyNum.round_half_even (x * PyNum.pow10 n)).
  split; [reflexivity|]. apply round_half_even_close.
Qed.

Lemma within_half_unit (k : Z) (x d : Q) :
  (0 < d)%Q ->
  (- (1 # 2) <= inject_Z k - x * d <= 1 # 2)%Q ->
  (Qabs (inject_Z k / d - x) <= (1 # 2) / d)%Q.
Proof.
  intros Hd [Hlo Hhi]. apply Qabs_Qle_condition.
  assert (Heq : (inject_Z k / d - x == (inject_Z k - x * d) / d)%Q)
    by (field; lra).
  rewrite Heq. split.
  - apply Qle_shift_div_l; [exact Hd|].
    assert (H : (- ((1 # 2) / d) * d == - (1 # 2))%Q) by (field; lra).
    rewrite H. exact Hlo.
  - apply Qle_shift_div_r; [exact Hd|].
    assert (H : ((1 # 2) / d * d == 1 # 2)%Q) by (field; lra).
    rewrite H. exact Hhi.
Qed.

Lemma rounded_within_half_unit (n : nat) (d : Q) (r : pynum) :
  QuoteFacts.rounded_to n (Num d) r ->
  exists k : Z,
    r = F64.nearest (inject_Z k / PyNum.pow10 n) /\
    (Qabs (inject_Z k / PyNum.pow10 n - d) <= (1 # 2) / PyNum.pow10 n)%Q.
Proof.
  intros (k & Hle & _ & Hr). exists k. split; [exact Hr|].
  apply within_half_unit; [apply pow10_pos|].
  now apply Qabs_Qle_condition.
Qed.

(** X27: in every quote returned with a price [p] and a previous close
    [pc] that are numbers, [pc] not zero, and a float difference [d] of
    the two that is finite, [change] is the float nearest to a whole
    number of ten-thousandths that lies within 0.00005 of [d]; and when
    [change] is a number [ch] and the float value [e] of
    [100 * ch / pc] is finite, [change_pct] is the float nearest to a
    whole number of thousandths that lies within 0.0005 of [e]. *)
Theorem quote_change_accuracy :
  forall (yf : Provider) (symbols : list (option string))
         (chunk_size sleep_ms now : Z) (q : Quote) (p pc d : Q),
    In q (fst (fetch_quotes yf symbols chunk_size sleep_ms now)) ->
    price q = Some (Num p) ->
    previous_close q = Some (Num pc) ->
    ~ (pc == 0)%Q ->
    F64.sub (Num p) (Num pc) = Num d ->
    (exists k : Z,
        change q = Some (F64.nearest (inject_Z k / 10000)) /\
        (Qabs (inject_Z k / 10000 - d) <= 1 # 20000)%Q) /\
    (forall ch e : Q,
        change q = Some (Num ch) ->
        F64.div (F64.mul (PyNum.of_Z 100) (Num ch)) (Num pc) = Num e ->
        exists m : Z,
          change_pct q = Some (F64.nearest (inject_Z m / 1000)) /\
          (Qabs (inject_Z m / 1000 - e) <= 1 # 2000)%Q).
Proof.
  intros yf symbols chunk_size sleep_ms now q p pc d Hin Hp Hpc Hnz Hd.
  rewrite QuoteFacts.fetch_quotes_map in Hin.
  apply in_map_iff in Hin as (sym & <- & _).
  pose proof (QuoteFacts.change_fields_ok_quote_for yf now sym) as Hok.
  unfold QuoteFacts.change_fields_ok in Hok. rewrite Hp, Hpc in Hok.
  assert (Hz : PyNum.is_zero pc = false).
  { unfold PyNum.is_zero. destruct (Qeq_bool pc 0) eqn:E; [|reflexivity].
    apply Qeq_bool_eq in E. contradiction. }
  cbn [PyNum.truthy] in Hok. rewrite Hz in Hok. cbv zeta in Hok. cbn [negb] in Hok.
  destruct Hok as [Hch Hcp]. rewrite Hd in Hch, Hcp. split.
  - destruct (rounded_within_half_unit 4 d _ (QuoteFacts.round_is_rounded_to 4 (Num d)))
      as (k & Hk & Hkb).
    exists k. split; [rewrite Hch; now rewrite Hk|exact Hkb].
  - intros ch e Hch' He. rewrite Hch in Hch'.
    assert (Hround : F64.round 4 (Num d) = Num ch) by congruence.
    rewrite Hround, He in Hcp.
    destruct (rounded_within_half_unit 3 e _ (QuoteFacts.round_is_rounded_to 3 (Num e)))
      as (m & Hm & Hmb).
    exists m. split; [rewrite Hcp; now rewrite Hm|exact Hmb].
Qed.

Lemma quote_change_accuracy_witness :
  exists (d : Q) (k : Z),
    F64.sub (Num QuoteFacts.float_400_01) (Num 400) = Num d /\
    change (quote_for QuoteFacts.one_cent_up 0 "TCS")
    = Some (F64.nearest (inject_Z k / 10000)) /\
    (Qabs (inject_Z k / 10000 - d) <= 1 # 20000)%Q.
Proof.
  destruct (F64.sub (Num QuoteFacts.float_400_01) (Num 400)) as [|d] eqn:Hd;
    [vm_compute in Hd; discriminate|].
  destruct (quote_change_accuracy QuoteFacts.one_cent_up [Some "tcs"] 25 200 0
              (quote_for QuoteFacts.one_cent_up 0 "TCS")
              QuoteFacts.float_400_01 400 d)
    as [(k & Hch & Hk) _].
  - rewrite QuoteFacts.fetch_quotes_map. left. reflexivity.
  - reflexivity.
  - reflexivity.
  - discriminate.
  - exact Hd.
  - exists d, k. split; [reflexivity|]. split; [exact Hch|exact Hk].
Defined.

(** *** RSI as reported *)

Lemma In_dropna v s : In v (dropna s) -> In (Num v) s.
Proof.
  induction s as [|[|q] s IH]; cbn; [tauto| |].
  - intros H. right. now apply IH.
  - intros [->|H]; [now left|right; now apply IH].
Qed.

Lemma last_opt_In {A : Type} (l : list A) v : last_opt l = Some v -> In v l.
Proof.
  unfold last_opt. intros H. apply in_rev.
  destruct (rev l) as [|a r]; [discriminate|]. injection H as ->. now left.
Qed.

Lemma rsi_raw_range close period v :
  In (Num v) (Indicators.rsi close period) -> (0 <= v)%Q /\ (v < 100)%Q.
Proof.
  intros Hin. rewrite IndicatorMore.rsi_unfold in Hin.
  apply in_map_iff in Hin as (x & Hx & Hin).
  destruct x as [|q]; [discriminate|].
  pose proof (IndicatorMore.rsi_ratio_nonneg close period (Num q) q Hin eq_refl) as Hq.
  unfold IndicatorMore.rsi_of_ratio, PyNum.of_Z in Hx.
  cbn [PyNum.add PyNum.lift2 PyNum.div] in Hx.
  destruct (PyNum.is_zero (inject_Z 1 + q)); [discriminate|].
  cbn [PyNum.sub PyNum.lift2] in Hx. injection Hx as <-.
  change (inject_Z 100) with 100%Q. change (inject_Z 1) with 1%Q.
  assert (H1 : (0 < 1 + q)%Q) by lra.
  assert (H2 : (0 < 100 / (1 + q))%Q) by (apply Qlt_shift_div_l; lra).
  assert (H3 : (100 / (1 + q) <= 100)%Q) by (apply Qle_shift_div_r; lra).
  split; lra.
Qed.

Lemma rounded_percent_range (w r : Q) :
  (0 <= w)%Q -> (w < 100)%Q ->
  PyNum.round_to 2 (Num w) = Num r -> (0 <= r)%Q /\ (r <= 100)%Q.
Proof.
  intros Hlo Hhi Hr.
  destruct (round_to_close 2 w) as (k & Hk & [Hk1 Hk2]).
  rewrite Hk in Hr. injection Hr as <-.
  change (PyNum.pow10 2) with 100%Q in *.
  assert (Hk0 : (0 <= k)%Z).
  { assert (H : (inject_Z (-1) < inject_Z k)%Q)
      by (change (inject_Z (-1)) with (-1)%Q; lra).
    rewrite <- Zlt_Qlt in H. lia. }
  assert (Hk100 : (k <= 10000)%Z).
  { assert (H : (inject_Z k < inject_Z 10001)%Q)
      by (change (inject_Z 10001) with 10001%Q; lra).
    rewrite <- Zlt_Qlt in H. lia. }
  rewrite Zle_Qle in Hk0, Hk100.
  change (inject_Z 0) with 0%Q in Hk0.
  change (inject_Z 10000) with 10000%Q in Hk100.
  split.
  - apply Qle_shift_div_l; lra.
  - apply Qle_shift_div_r; lra.
Qed.

(** X28: every RSI value [compute_all_indicators] reports, the latest one
    included, lies between 0 and 100. *)
Theorem reported_rsi_between_0_and_100 :
  forall (df : DataFrame) (close : Series),
    Indicators.close_of df = Ok close ->
    exists out,
      Indicators.compute_all_indicators df = Ok out /\
      (forall v, In v (Indicators.series (Indicators.rsi_entry out)) ->
                 (0 <= v <= 100)%Q) /\
      (forall v, Indicators.latest (Indicators.rsi_entry out) = Some v ->
                 (0 <= v <= 100)%Q).
Proof.
  intros df close Hclose. unfold Indicators.compute_all_indicators.
  rewrite Hclose. cbn [bind].
  destruct (IndicatorFacts.macd_defaults_return close)
    as ([[m_line m_sig] m_hist] & ->).
  cbn [bind]. eexists. split; [reflexivity|].
  cbn [Indicators.rsi_entry Indicators.series Indicators.latest].
  assert (Hall : forall v, In v (dropna (round 2 (Indicators.rsi close 14))) ->
                           (0 <= v <= 100)%Q).
  { intros v Hv. apply In_dropna in Hv. unfold round in Hv.
    apply in_map_iff in Hv as ([|w] & Hw & Hin); [discriminate|].
    destruct (rsi_raw_range close 14 w Hin) as [Hlo Hhi].
    exact (rounded_percent_range w v Hlo Hhi Hw). }
  split; [exact Hall|].
  intros v Hv. apply Hall. now apply last_opt_In.
Qed.

(** Sixteen days of a price that goes up and down. *)
Definition sixteen_days : DataFrame :=
  mkDataFrame (Some "Date")
    (map (fun i => PyNum.of_Z (Z.of_nat i)) (seq 0 16))
    [("Close", map (fun i => PyNum.of_Z (100 + Z.of_nat (i mod 3))) (seq 0 16))].

Lemma reported_rsi_between_0_and_100_witness :
  exists out,
    Indicators.compute_all_indicators sixteen_days = Ok out /\
    (forall v, In v (Indicators.series (Indicators.rsi_entry out)) ->
               (0 <= v <= 100)%Q) /\
    (forall v, Indicators.latest (Indicators.rsi_entry out) = Some v ->
               (0 <= v <= 100)%Q).
Proof.
  apply (reported_rsi_between_0_and_100 sixteen_days
           (map (fun i => PyNum.of_Z (100 + Z.of_nat (i mod 3))) (seq 0 16))).
  reflexivity.
Defined.

End RoundMore.

(** ** services/tickers.py *)

Module Tickers.

(** The CSV as [pd.read_csv] returns it: named columns of text cells,
    [None] for a missing cell.  [load_supported_tickers] is modelled from
    that point on; the check that the file exists comes before it. *)
Definition Csv : Type := list (string * list (option string)).

Definition POSSIBLE_COLS : list string := ["symbol"; "ticker"; "Ticker"; "SYMBOL"].

Definition has_col (name : string) (df : Csv) : bool :=
  existsb (fun c => String.eqb (fst c) name) df.

(* df[col] *)
Definition col_values (name : string) (df : Csv) : list (option string) :=
  match find (fun c => String.eqb (fst c) name) df with
  | Some c => snd c
  | None => []
  end.

(* s.dropna() *)
Fixpoint dropna (cells : list (option string)) : list string :=
  match cells with
  | [] => []
  | None :: cells' => dropna cells'
  | Some v :: cells' => v :: dropna cells'
  end.

(* t in seen *)
Definition mem (t : string) (seen : list string) : bool :=
  existsb (String.eqb t) seen.

(* for t in tickers: if t and t not in seen: seen.add(t); unique.append(t) *)
Fixpoint unique_loop (tickers seen unique : list string) : list string :=
  match tickers with
  | [] => unique
  | t :: tickers' =>
      if Py.truthy_str t && negb (mem t seen)
      then unique_loop tickers' (t :: seen) (unique ++ [t])%list
      else unique_loop tickers' seen unique
  end.

Definition load_supported_tickers (df : Csv) : result (list string) :=
  match find (fun c => has_col c df) POSSIBLE_COLS with
  | None =>
      Raise (ValueError
        ("No ticker column found in CSV. Expected one of "
         ++ "['symbol', 'ticker', 'Ticker', 'SYMBOL']"))
  | Some col =>
      let tickers := map Py.upper (map Py.strip (dropna (col_values col df))) in
      Ok (unique_loop tickers [] [])
  end.

End Tickers.

Module TickersFacts.

Import Tickers.

Lemma mem_In t seen : mem t seen = true <-> In t seen.
Proof.
  unfold mem. rewrite existsb_exists. split.
  - intros (x & Hx & E). apply String.eqb_eq in E. now subst.
  - intros H. exists t. split; [exact H|apply String.eqb_refl].
Qed.

Lemma truthy_str_nonempty t : Py.truthy_str t = true <-> t <> "".
Proof.
  destruct t; cbn; split; congruence.
Qed.

Lemma unique_loop_spec tickers seen unique :
  (forall x, In x seen <-> In x unique) ->
  NoDup unique -> ~ In "" unique ->
  let r := unique_loop tickers seen unique in
  NoDup r /\ ~ In "" r /\
  (forall x, In x r <-> In x unique \/ (In x tickers /\ x <> "")) /\
  exists added, r = (unique ++ added)%list.
Proof.
  revert seen unique.
  induction tickers as [|t tickers IH]; intros seen unique Hseen Hnd Hne;
    cbn [unique_loop].
  - cbv zeta. repeat split; auto.
    + intros [H|[[] _]]; exact H.
    + exists []. now rewrite app_nil_r.
  - destruct (Py.truthy_str t) eqn:Ht; cbn [andb].
    + destruct (mem t seen) eqn:Hm; cbn [negb].
      * apply mem_In in Hm.
        destruct (IH seen unique Hseen Hnd Hne) as (H1 & H2 & H3 & H4).
        cbv zeta. repeat split; auto.
        -- intros Hx. apply H3 in Hx as [Hx|[Hx Hn]]; [now left|].
           right. split; [now right|exact Hn].
        -- intros [Hx|[[<-|Hx] Hn]]; apply H3.
           ++ now left.
           ++ left. now apply Hseen.
           ++ right. now split.
      * assert (Hnew : ~ In t unique).
        { intros Hin. apply Hseen in Hin. apply mem_In in Hin. congruence. }
        apply truthy_str_nonempty in Ht.
        destruct (IH (t :: seen) (unique ++ [t])%list) as (H1 & H2 & H3 & H4).
        -- intros x. cbn [In]. rewrite in_app_iff, Hseen. cbn [In]. tauto.
        -- apply NoDup_app; [exact Hnd|repeat constructor; intros []|].
           intros x Hx [<-|[]]. contradiction.
        -- rewrite in_app_iff. cbn [In]. intros [H|[H|[]]]; [now apply Hne|].
           now apply Ht.
        -- cbv zeta. repeat split; auto.
           ++ intros Hx. apply H3 in Hx as [Hx|[Hx Hn]].
              ** apply in_app_iff in Hx as [Hx|[<-|[]]]; [now left|].
                 right. split; [now left|exact Ht].
              ** right. split; [now right|exact Hn].
           ++ intros [Hx|[[<-|Hx] Hn]]; apply H3.
              ** left. apply in_app_iff. now left.
              ** left. apply in_app_iff. right. now left.
              ** right. now split.
           ++ destruct H4 as (added & ->). exists (t :: added).
              now rewrite <- app_assoc.
    + destruct (IH seen unique Hseen Hnd Hne) as (H1 & H2 & H3 & H4).
      assert (Hempty : t = "") by (destruct t; [reflexivity|discriminate]).
      cbv zeta. repeat split; auto.
      * intros Hx. apply H3 in Hx as [Hx|[Hx Hn]]; [now left|].
        right. split; [now right|exact Hn].
      * intros [Hx|[[<-|Hx] Hn]]; apply H3; [now left|congruence|].
        right. now split.
Qed.

Lemma In_dropna_cells v cells : In v (dropna cells) <-> In (Some v) cells.
Proof.
  induction cells as [|[w|] cells IH]; cbn; [tauto| |].
  - rewrite IH. split; intros [H|H]; auto; left; congruence.
  - rewrite IH. split; [auto|]. intros [H|H]; [discriminate|exact H].
Qed.

(** X29: given the parsed CSV, [load_supported_tickers] raises
    [ValueError] exactly when none of the columns "symbol", "ticker",
    "Ticker", "SYMBOL" is present.  Otherwise it reads the first of these
    that is present and returns a list without repetitions and without
    the empty string, holding exactly the non-empty upper-cased, trimmed
    forms of the cells that are not missing. *)
Theorem load_supported_tickers_unique :
  forall df : Csv,
    ((forall c, In c POSSIBLE_COLS -> has_col c df = false) <->
     exists e, load_supported_tickers df = Raise e) /\
    (forall out,
        load_supported_tickers df = Ok out ->
        exists col,
          find (fun c => has_col c df) POSSIBLE_COLS = Some col /\
          NoDup out /\ ~ In "" out /\
          forall x, In x out <->
                    x <> "" /\
                    exists v, In (Some v) (col_values col df) /\
                              x = Py.upper (Py.strip v)).
Proof.
  intros df. unfold load_supported_tickers.
  destruct (find (fun c => has_col c df) POSSIBLE_COLS) as [col|] eqn:Hfind.
  - split.
    + split.
      * intros Hnone. apply find_some in Hfind as [Hin Hc].
        rewrite (Hnone col Hin) in Hc. discriminate.
      * intros (e & He). discriminate.
    + intros out Hout. injection Hout as <-. exists col. split; [reflexivity|].
      destruct (unique_loop_spec
                  (map Py.upper (map Py.strip (dropna (col_values col df)))) [] [])
        as (Hnd & Hne & Hin & _); [tauto|constructor|intros []|].
      split; [exact Hnd|]. split; [exact Hne|].
      intros x. rewrite Hin. cbn [In]. split.
      * intros [[]|[Hx Hn]]. split; [exact Hn|].
        apply in_map_iff in Hx as (y & <- & Hy).
        apply in_map_iff in Hy as (v & <- & Hv).
        exists v. split; [now apply In_dropna_cells|reflexivity].
      * intros [Hn (v & Hv & ->)]. right. split; [|exact Hn].
        apply in_map. apply in_map. now apply In_dropna_cells.
  - split.
    + split.
      * intros _. eexists. reflexivity.
      * intros _ c Hc. exact (find_none _ _ Hfind c Hc).
    + intros out Hout. discriminate.
Qed.

Lemma load_supported_tickers_unique_witness :
  load_supported_tickers
    [("name", [Some "x"]);
     ("ticker", [Some " tcs.ns "; None; Some "INFY"; Some "Tcs.NS"; Some "  "])]
  = Ok ["TCS.NS"; "INFY"] /\
  exists e, load_supported_tickers [("name", [Some "x"])] = Raise e.
Proof.
  split; [reflexivity|].
  apply (load_supported_tickers_unique [("name", [Some "x"])]).
  intros c Hc. cbn in Hc.
  destruct Hc as [<-|[<-|[<-|[<-|[]]]]]; reflexivity.
Defined.

End TickersFacts.
